(** * linc-convert: the dark-field single-slice converter

    A shallow embedding of [linc_convert/modalities/df/single_slice.py]
    (function [convert]) together with the properties that its
    specification states about it.

    Conventions of the embedding:
    - Python [int]s that may be negative are [Z]; sizes, shapes and loop
      counters, which are never negative, are [nat];
    - Python [float]s are idealised as exact rationals ([Qc]); rounding
      is not modelled;
    - the destination Zarr group is a finite map from keys to arrays;
    - a Python exception is a value of type [error]; the part of the
      store written before the exception is kept;
    - [print] calls are left out. *)

From Stdlib Require Import ZArith QArith Qcanon Ascii String DecimalString DecimalNat.
From stdpp Require Import gmap strings list fin_maps.

Close Scope Qc_scope.
Close Scope Q_scope.
Local Open Scope nat_scope.

(** The exceptions that can leave [convert]. *)
Inductive error :=
  | SyntaxError          (* ast.literal_eval *)
  | MetadataError        (* get_pixelsize *)
  | CompressorError      (* make_compressor *)
  | ContainsArrayError   (* create_dataset on a key in use *)
  | ValueError           (* shape mismatch, bad chunks *)
  | ZeroDivisionError
  | KeyError
  | IndexError
  | OrientationError.    (* orientation_to_affine *)

(** * Python built-ins used by the converter *)

Module Py.

(** [norm_index len x]: the position a slice bound [x] denotes in a
    sequence of length [len] (negative bounds count from the end, every
    bound is clipped to the sequence). *)
Definition norm_index (len : nat) (x : Z) : nat :=
  if (x <? 0)%Z then Z.to_nat (Z.of_nat len + x)
  else Nat.min (Z.to_nat x) len.

(** [slice a b l] is [l[a:b]] for bounds already normalised. *)
Definition slice {A : Type} (a b : nat) (l : list A) : list A :=
  take (b - a) (drop a l).

(** [l[-2:]] *)
Definition last2 {A : Type} (l : list A) : list A :=
  drop (length l - 2) l.

(** [l[-k]] for [k >= 1]; [None] stands for [IndexError]. *)
Definition index_neg {A : Type} (l : list A) (k : nat) : option A :=
  if decide (k ≤ length l) then l !! (length l - k) else None.

(** [range n] for an integer [n]: empty when [n <= 0]. *)
Definition range (n : Z) : list nat := seq 0 (Z.to_nat n).

(** [[x] * k]: list repetition; empty when [k <= 0]. *)
Definition list_mul {A : Type} (x : A) (k : Z) : list A :=
  replicate (Z.to_nat k) x.

(** [str(n)] of a non-negative integer: its decimal numeral. *)
Definition str (n : nat) : string :=
  NilEmpty.string_of_uint (Nat.to_uint n).

(** [p.rfind(c)]: the last position of [c], [None] for [-1]. *)
Fixpoint rfind (c : ascii) (p : list ascii) : option nat :=
  match p with
  | [] => None
  | x :: p' =>
      match rfind c p' with
      | Some i => Some (S i)
      | None => if decide (x = c) then Some 0 else None
      end
  end.

(** [os.path.splitext] on a POSIX path ([genericpath._splitext] with
    [sep = "/"], no [altsep], [extsep = "."]): the extension starts at
    the last dot of the last component, leading dots of that component
    not counting. *)
Definition splitext_chars (p : list ascii) : list ascii * list ascii :=
  let filenameIndex := match rfind "/" p with Some i => S i | None => 0 end in
  match rfind "." p with
  | Some dotIndex =>
      if decide (filenameIndex ≤ dotIndex) then
        if existsb (λ c, negb (bool_decide (c = "."%char)))
                   (slice filenameIndex dotIndex p)
        then (take dotIndex p, drop dotIndex p)
        else (p, [])
      else (p, [])
  | None => (p, [])
  end.

Definition splitext (p : string) : string * string :=
  let '(root, ext) := splitext_chars (list_ascii_of_string p) in
  (string_of_list_ascii root, string_of_list_ascii ext).

(** [s.endswith(suffix)] *)
Definition endswith (s suffix : string) : bool :=
  let l := list_ascii_of_string s in
  let x := list_ascii_of_string suffix in
  bool_decide (length x ≤ length l ∧ drop (length l - length x) l = x).

End Py.

(** * Region reads and writes on arrays

    An array of shape [(..., H, W)] is held as the list of its planes,
    one per index of the leading dimensions (a two-dimensional array has
    exactly one plane); a plane is a list of [H] rows of [W] elements.
    The converter only ever slices the last two dimensions. *)

Section Regions.
Context {A : Type}.

Definition plane_ok (H W : nat) (p : list (list A)) : Prop :=
  length p = H ∧ Forall (λ r : list A, length r = W) p.

Definition planes_ok (n H W : nat) (a : list (list (list A))) : Prop :=
  length a = n ∧ Forall (plane_ok H W) a.

#[global] Instance plane_ok_dec H W p : Decision (plane_ok H W p).
Proof. unfold plane_ok. apply _. Defined.

#[global] Instance planes_ok_dec n H W a : Decision (planes_ok n H W a).
Proof. unfold planes_ok. apply _. Defined.

(** A rectangular region [r0:r1, c0:c1] of the two spatial axes. *)
Record region := Region { r0 : nat; r1 : nat; c0 : nat; c1 : nat }.

Definition in_region (R : region) (r c : nat) : bool :=
  (r0 R <=? r) && (r <? r1 R) && (c0 R <=? c) && (c <? c1 R).

(** [subdat[..., r0:r1, c0:c1]] *)
Definition getitem_plane (R : region) (p : list (list A)) : list (list A) :=
  Py.slice (c0 R) (c1 R) <$> Py.slice (r0 R) (r1 R) p.

Definition getitem (R : region) (a : list (list (list A))) : list (list (list A)) :=
  getitem_plane R <$> a.

(** [array[..., r0:r1, c0:c1] = block], the block having the shape of the
    region. *)
Definition set_row (R : region) (old new : list A) : list A :=
  take (c0 R) old ++ new ++ drop (c1 R) old.

Definition setitem_plane (R : region) (p b : list (list A)) : list (list A) :=
  take (r0 R) p ++ zip_with (set_row R) (Py.slice (r0 R) (r1 R) p) b
                ++ drop (r1 R) p.

(** The store refuses a block whose shape is not that of the selection
    (a [ValueError]); broadcasting is not modelled. [H], [W] is the
    spatial shape of the array written to. *)
Definition setitem (H W : nat) (R : region)
    (a block : list (list (list A))) : option (list (list (list A))) :=
  if decide (planes_ok (length a)
               (Nat.min (r1 R) H - r0 R) (Nat.min (c1 R) W - c0 R) block)
  then Some (zip_with (setitem_plane R) a block)
  else None.

(** [...] alone selects the whole of both spatial axes. *)
Definition whole (H W : nat) : region := Region 0 H 0 W.

End Regions.

(** * The copy of one level (lines 127-144) *)

Module Copy.

(** Modelled from the spec: [ceildiv] of [linc_convert.utils.math] is
    not part of the sources at hand; the specification gives
    [ceil(dimSize / maxLoad)] tiles per axis.  Division by zero raises. *)
Definition ceildiv (x y : Z) : option Z :=
  if (y =? 0)%Z then None else Some (- ((- x) / y))%Z.

(** The tile visited at iteration [(i, j)]:
    [i*max_load : min((i+1)*max_load, shape[-2])] by
    [j*max_load : min((j+1)*max_load, shape[-1])]. *)
Definition tile (max_load : Z) (H W i j : nat) : region :=
  {| r0 := Py.norm_index H (Z.of_nat i * max_load);
     r1 := Py.norm_index H (Z.min ((Z.of_nat i + 1) * max_load) (Z.of_nat H));
     c0 := Py.norm_index W (Z.of_nat j * max_load);
     c1 := Py.norm_index W (Z.min ((Z.of_nat j + 1) * max_load) (Z.of_nat W)) |}.

(** The tiles in the order the two nested loops visit them. *)
Definition tiles (max_load : Z) (H W : nat) (ni nj : Z) : list region :=
  i ← Py.range ni; j ← Py.range nj; [tile max_load H W i j].

Section Loop.
Context {A : Type}.

(** One assignment [array[..., R] = subdat[..., R]]. *)
Definition copy_region (H W : nat) (R : region)
    (subdat array : list (list (list A))) : option (list (list (list A))) :=
  setitem H W R array (getitem R subdat).

Fixpoint copy_tiles (H W : nat) (ts : list region)
    (subdat array : list (list (list A))) : option (list (list (list A))) :=
  match ts with
  | [] => Some array
  | R :: ts' =>
      match copy_region H W R subdat array with
      | Some array' => copy_tiles H W ts' subdat array'
      | None => None
      end
  end.

(** Lines 127-144.  [H], [W] are [shape[-2]], [shape[-1]] of the level
    view, which is also the shape the destination was created with. *)
Definition copy_level (max_load : option Z) (H W : nat)
    (subdat array : list (list (list A)))
  : error + list (list (list A)) :=
  let whole_copy :=
    match copy_region H W (whole H W) subdat array with
    | Some a => inr a
    | None => inl ValueError
    end in
  match max_load with
  | None => whole_copy
  | Some m =>
      if (Z.of_nat H <? m)%Z && (Z.of_nat W <? m)%Z then whole_copy
      else
        match ceildiv (Z.of_nat H) m, ceildiv (Z.of_nat W) m with
        | Some ni, Some nj =>
            match copy_tiles H W (tiles m H W ni nj) subdat array with
            | Some a => inr a
            | None => inl ValueError
            end
        | _, _ => inl ZeroDivisionError
        end
  end.

End Loop.
End Copy.

(** * Numbers *)

(** A Python [int] used in a float expression. *)
Definition ofnat (n : nat) : Qc := Q2Qc (inject_Z (Z.of_nat n)).

(** The literal [0.5]. *)
Definition half : Qc := Q2Qc (1 # 2).

(** [a / b] on two [int]s (true division). *)
Definition true_div (a b : nat) : error + Qc :=
  if decide (b = 0) then inl ZeroDivisionError else inr (ofnat a / ofnat b)%Qc.

Definition product (l : list nat) : nat := foldr Nat.mul 1 l.

(** * Orientation and affine ([linc_convert.utils.orientation]) *)

Module Orientation.

(** An affine is a 4x4 matrix, held row by row. *)
Record Row4 := { e0 : Qc; e1 : Qc; e2 : Qc; e3 : Qc }.
Record Affine := { row0 : Row4; row1 : Row4; row2 : Row4; row3 : Row4 }.

(** The RAS axis and sign an anatomical letter stands for. *)
Definition letter (c : ascii) : option (nat * Qc) :=
  if decide (c = "R"%char) then Some (0, 1%Qc)
  else if decide (c = "L"%char) then Some (0, (-1)%Qc)
  else if decide (c = "A"%char) then Some (1, 1%Qc)
  else if decide (c = "P"%char) then Some (1, (-1)%Qc)
  else if decide (c = "S"%char) then Some (2, 1%Qc)
  else if decide (c = "I"%char) then Some (2, (-1)%Qc)
  else None.

Definition resolve_alias (o : string) : string :=
  if decide (o = "coronal"%string) then "LI"%string
  else if decide (o = "axial"%string) then "LP"%string
  else if decide (o = "sagittal"%string) then "PI"%string
  else o.

(** The RAS axis left for the out-of-plane direction. *)
Definition third_axis (ia ib : nat) : nat :=
  if negb (ia =? 0) && negb (ib =? 0) then 0
  else if negb (ia =? 1) && negb (ib =? 1) then 1
  else 2.

(** Modelled from the spec: [orientation_to_affine] is not part of the
    sources at hand.  The specification: a two-letter code over
    [{L,R,A,P,I,S}] or one of the aliases [coronal], [axial], [sagittal];
    the first letter is the direction of the image's right edge, the
    second that of its bottom edge; in-plane axes are scaled by the voxel
    sizes and the out-of-plane axis by the slice thickness.  Any other
    code is refused. *)
Definition orientation_to_affine (o : string) (vxw vxh vxd : Qc) : option Affine :=
  match list_ascii_of_string (resolve_alias o) with
  | [a; b] =>
      match letter a, letter b with
      | Some (ia, sa), Some (ib, sb) =>
          let ic := third_axis ia ib in
          let row i :=
            {| e0 := if i =? ia then (sa * vxw)%Qc else 0%Qc;
               e1 := if i =? ib then (sb * vxh)%Qc else 0%Qc;
               e2 := if i =? ic then vxd else 0%Qc;
               e3 := 0%Qc |} in
          Some {| row0 := row 0; row1 := row 1; row2 := row 2;
                  row3 := {| e0 := 0%Qc; e1 := 0%Qc; e2 := 0%Qc; e3 := 1%Qc |} |}
      | _, _ => None
      end
  | _ => None
  end.

(** Voxel coordinate [k] of the centre of a field of view of the given
    shape; an axis the shape does not list has extent one. *)
Definition fov_center (shape : list nat) (k : nat) : Qc :=
  ((ofnat (nth k shape 1%nat) - 1) / (1 + 1))%Qc.

Definition recenter (shape : list nat) (r : Row4) : Row4 :=
  {| e0 := e0 r; e1 := e1 r; e2 := e2 r;
     e3 := (- (e0 r * fov_center shape 0 + e1 r * fov_center shape 1
               + e2 r * fov_center shape 2))%Qc |}.

(** Modelled from the spec: [center_affine] is not part of the sources
    at hand.  The specification: recompute the affine's translation so
    that the voxel at the geometric centre of the field of view maps to
    the world origin. *)
Definition center_affine (a : Affine) (shape : list nat) : Affine :=
  {| row0 := recenter shape (row0 a); row1 := recenter shape (row1 a);
     row2 := recenter shape (row2 a); row3 := row3 a |}.

(** The world coordinate that row [r] gives the voxel [(x, y, z)]. *)
Definition apply_row (r : Row4) (x y z : Qc) : Qc :=
  (e0 r * x + e1 r * y + e2 r * z + e3 r)%Qc.

Definition centered (a : Affine) (shape : list nat) : Prop :=
  ∀ r, r ∈ [row0 a; row1 a; row2 a] →
    apply_row r (fov_center shape 0) (fov_center shape 1) (fov_center shape 2) = 0%Qc.

End Orientation.

(** * The codestream ([glymur.Jp2k]) and its level views *)

Record Jp2k := {
  jp_shape : list nat;                 (* rows, columns, then bands *)
  jp_dtype : string;
  jp_num_res : nat;                    (* codestream.segment[2].num_res *)
  jp_resolution : option (Qc * Qc);    (* (vxw, vxh) of the resolution box *)
  jp_level_hw : nat → nat * nat;       (* decoder: spatial shape of a level *)
  jp_level_data : nat → list (list (list Z))   (* decoder: planes of a level *)
}.

Definition ndim (j : Jp2k) : Z := Z.of_nat (length (jp_shape j)).

(** Modelled from the spec: [get_pixelsize] of [linc_convert.utils.j2k]
    is not part of the sources at hand.  The specification: the voxel
    width and height read from the resolution metadata, a
    [MetadataError] when the codestream has none. *)
Definition get_pixelsize (j : Jp2k) : error + Qc * Qc :=
  match jp_resolution j with
  | Some v => inr v
  | None => inl MetadataError
  end.

Record WrappedJ2K := Wrap { wj_j2k : Jp2k; wj_level : nat }.

(** Modelled from the spec: [WrappedJ2K] of [linc_convert.utils.j2k] is
    not part of the sources at hand.  The specification: the shape of a
    level view is [(..., H, W)], the leading dimensions being the channel
    dimensions of the codestream. *)
Definition wj_shape (v : WrappedJ2K) : list nat :=
  let '(h, w) := jp_level_hw (wj_j2k v) (wj_level v) in
  drop 2 (jp_shape (wj_j2k v)) ++ [h; w].

(** [subdat[...]]: the decoded planes of the level. *)
Definition wj_data (v : WrappedJ2K) : list (list (list Z)) :=
  jp_level_data (wj_j2k v) (wj_level v).

(** * The multiscale descriptor *)

Record Axis := { ax_name : string; ax_type : string; ax_unit : option string }.

Inductive Transform :=
  | Scale (scale : list Qc)
  | Translation (translation : list Qc).

Record Dataset := { ds_path : string; ds_transforms : list Transform }.

Record Multiscale := {
  ms_version : string;
  ms_axes : list Axis;
  ms_datasets : list Dataset;
  ms_type : string;
  ms_name : string;
  ms_transforms : list Transform
}.

(** * The NIfTI-2 header ([nibabel.Nifti2Header]) *)

Record Nifti2Header := {
  nh_data_shape : list nat;
  nh_data_dtype : string;
  nh_qform : Orientation.Affine;
  nh_sform : Orientation.Affine;
  nh_xyzt_units : string;
  nh_magic : string
}.

(** * Libraries the converter calls

    What [ast.literal_eval], [make_compressor] (of
    [linc_convert.utils.zarr], not part of the sources at hand) and the
    serialisation of the header do is left open. *)

Record Env := {
  opts : Type;                                       (* a parsed option dict *)
  codec : Type;                                      (* a numcodecs codec *)
  literal_eval : string → option opts;               (* [None]: it raises *)
  make_compressor : string → opts → option codec;    (* [None]: it raises *)
  tobytes : Nifti2Header → list Z                    (* structarr.tobytes() *)
}.

(** * The destination store ([zarr] group) *)

Inductive zdata :=
  | Pixels (p : list (list (list Z)))   (* rank >= 2: the planes *)
  | Bytes (b : list Z).                 (* rank 1 *)

Section Store.
Context {E : Env}.

Record ZArray := {
  za_shape : list nat;
  za_chunks : list nat;
  za_separator : string;
  za_order : string;
  za_dtype : string;
  za_fill_value : option Z;
  za_compressor : option (codec E);
  za_data : zdata
}.

Record Group := {
  g_arrays : gmap string ZArray;
  g_multiscales : option (list Multiscale)     (* attrs["multiscales"] *)
}.

(** The keyword options [opt] of [create_dataset]. *)
Record CreateOpt := {
  co_chunks : list nat;
  co_separator : string;
  co_order : string;
  co_dtype : string;
  co_fill_value : option Z;
  co_compressor : option (codec E)
}.

(** Computations on the open group that may raise. *)
Definition M (A : Type) : Type := Group → (error + A) * Group.

Definition ret {A} (a : A) : M A := λ g, (inr a, g).
Definition raise {A} (e : error) : M A := λ g, (inl e, g).
Definition bind {A B} (m : M A) (k : A → M B) : M B :=
  λ g, match m g with
       | (inr a, g') => k a g'
       | (inl e, g') => (inl e, g')
       end.
Definition lift {A} (r : error + A) : M A :=
  match r with inr a => ret a | inl e => raise e end.
Definition lift_opt {A} (e : error) (o : option A) : M A :=
  match o with Some a => ret a | None => raise e end.

End Store.

Arguments ZArray : clear implicits.
Arguments Group : clear implicits.
Arguments CreateOpt : clear implicits.
Arguments M : clear implicits.

Notation "'let*' x ':=' m 'in' k" := (bind m (λ x, k))
  (at level 10, x name, m at level 100, k at level 200).

Section Zarr.
Context {E : Env}.

(** [zarr.group(store, overwrite=True)] *)
Definition empty_group : Group E :=
  {| g_arrays := ∅; g_multiscales := None |}.

(** The content of an array nothing was written to. *)
Definition blank (shape : list nat) : zdata :=
  let n := length shape in
  if decide (2 ≤ n)
  then Pixels (replicate (product (take (n - 2) shape))
                 (replicate (nth (n - 2) shape 0) (replicate (nth (n - 1) shape 0) 0%Z)))
  else Bytes (replicate (product shape) 0%Z).

(** [omz.create_dataset(name, shape=shape, data=data, **opt)].  A key in
    use is refused.  When [data] is given the array takes the shape of
    the data, whatever [shape] says ([zarr.creation.array]).  Chunks of
    a rank above that of the array are refused; chunks of a lower rank
    are completed with the shape. *)
Definition create_dataset (name : string) (shape : list nat)
    (opt : CreateOpt E) (data : option (list Z)) : M E unit :=
  λ g,
    match g_arrays g !! name with
    | Some _ => (inl ContainsArrayError, g)
    | None =>
        let shape' := match data with Some d => [length d] | None => shape end in
        if decide (length shape' < length (co_chunks opt))
        then (inl ValueError, g)
        else
          let a := {| za_shape := shape';
                      za_chunks := co_chunks opt ++ drop (length (co_chunks opt)) shape';
                      za_separator := co_separator opt;
                      za_order := co_order opt;
                      za_dtype := co_dtype opt;
                      za_fill_value := co_fill_value opt;
                      za_compressor := co_compressor opt;
                      za_data := match data with
                                 | Some d => Bytes d
                                 | None => blank shape'
                                 end |} in
          (inr (), {| g_arrays := <[name := a]> (g_arrays g);
                      g_multiscales := g_multiscales g |})
    end.

(** [omz[name]] *)
Definition getarr (name : string) : M E (ZArray E) :=
  λ g, match g_arrays g !! name with
       | Some a => (inr a, g)
       | None => (inl KeyError, g)
       end.

(** The effect of an assignment through the handle [omz[name]]. *)
Definition set_data (name : string) (a : ZArray E) (d : zdata) : M E unit :=
  λ g, (inr (),
        {| g_arrays :=
             <[name := {| za_shape := za_shape a; za_chunks := za_chunks a;
                          za_separator := za_separator a; za_order := za_order a;
                          za_dtype := za_dtype a; za_fill_value := za_fill_value a;
                          za_compressor := za_compressor a; za_data := d |}]>
               (g_arrays g);
           g_multiscales := g_multiscales g |}).

(** [omz.attrs["multiscales"] = ms] *)
Definition set_multiscales (ms : list Multiscale) : M E unit :=
  λ g, (inr (), {| g_arrays := g_arrays g; g_multiscales := Some ms |}).

End Zarr.

(** * The converter ([convert], lines 30-227) *)

Record Args := {
  inp : string;
  out : option string;
  chunk : nat;
  compressor : string;
  compressor_opt : string;
  max_load : option Z;
  nii : bool;
  orientation : string;
  center : bool;
  thickness : option Qc
}.

(** Lines 92-96: the output path and the header-variant flag. *)
Definition resolve_out (inp : string) (out : option string) (nii : bool)
  : string * bool :=
  let derived :=
    (fst (Py.splitext inp) +:+ (if nii then ".nii.zarr" else ".ome.zarr"))%string in
  let out' :=
    match out with
    | Some o => if decide (o = ""%string) then derived else o     (* [not out] *)
    | None => derived
    end in
  (out', nii || Py.endswith out' ".nii.zarr").

(** Line 120. *)
Definition has_channel (j : Jp2k) : Z := (ndim j - 2)%Z.

(** Lines 148-159. *)
Definition axes (has_channel : Z) : list Axis :=
  let spatial :=
    [ {| ax_name := "y"; ax_type := "space"; ax_unit := Some "micrometer"%string |};
      {| ax_name := "x"; ax_type := "space"; ax_unit := Some "micrometer"%string |} ] in
  if decide (has_channel ≠ 0%Z)
  then {| ax_name := "c"; ax_type := "channel"; ax_unit := None |} :: spatial
  else spatial.

(** Lines 204-206. *)
Definition header_shape (has_channel : Z) (shape0 : list nat) : list nat :=
  let shape := rev shape0 in
  if decide (has_channel ≠ 0%Z)
  then take 2 shape ++ [1; 1] ++ drop 2 shape
  else shape.

(** [thickness or 1] *)
Definition thickness_or_1 (t : option Qc) : Qc :=
  match t with
  | Some x => if decide (x = 0%Qc) then 1%Qc else x
  | None => 1%Qc
  end.

Section Convert.
Context {E : Env}.

(** Lines 109-116. *)
Definition level_opt (j : Jp2k) (chunk : nat) (comp : codec E) : CreateOpt E :=
  {| co_chunks := drop 2 (jp_shape j) ++ [chunk; chunk];
     co_separator := "/";
     co_order := "F";
     co_dtype := jp_dtype j;
     co_fill_value := None;
     co_compressor := Some comp |}.

(** Lines 122-144: one iteration of the level loop.  The shape of a
    level view always ends in its two spatial extents, so [shape[-2]]
    and [shape[-1]] are read up front; the array just created holds
    planes. *)
Definition write_level (opt : CreateOpt E) (max_load : option Z)
    (j : Jp2k) (level : nat) : M E unit :=
  let subdat := Wrap j level in
  let shape := wj_shape subdat in
  let* _ := create_dataset (Py.str level) shape opt None in
  let* array := getarr (Py.str level) in
  let* H := lift_opt IndexError (Py.index_neg shape 2) in
  let* W := lift_opt IndexError (Py.index_neg shape 1) in
  match za_data array with
  | Pixels p =>
      let* p' := lift (Copy.copy_level max_load H W (wj_data subdat) p) in
      set_data (Py.str level) array (Pixels p')
  | Bytes _ => raise ValueError
  end.

(** Lines 121-144. *)
Fixpoint write_levels (opt : CreateOpt E) (max_load : option Z)
    (j : Jp2k) (levels : list nat) : M E unit :=
  match levels with
  | [] => ret ()
  | level :: rest =>
      let* _ := write_level opt max_load j level in
      write_levels opt max_load j rest
  end.

(** Lines 162-187: the entry of level [n]. *)
Definition dataset_entry (has_channel : Z) (vxw vxh : Qc) (n : nat) : M E Dataset :=
  let* a0 := getarr "0" in
  let shape0 := Py.last2 (za_shape a0) in
  let* an := getarr (Py.str n) in
  let shape := Py.last2 (za_shape an) in
  let* s00 := lift_opt IndexError (shape0 !! 0) in
  let* s0 := lift_opt IndexError (shape !! 0) in
  let* ry := lift (true_div s00 s0) in
  let* s01 := lift_opt IndexError (shape0 !! 1) in
  let* s1 := lift_opt IndexError (shape !! 1) in
  let* rx := lift (true_div s01 s1) in
  ret {| ds_path := Py.str n;
         ds_transforms :=
           [ Scale (Py.list_mul 1%Qc has_channel
                      ++ [ (ry * vxh)%Qc; (rx * vxw)%Qc ]);
             Translation (Py.list_mul 0%Qc has_channel
                      ++ [ ((ry - 1) * vxh * half)%Qc;
                           ((rx - 1) * vxw * half)%Qc ]) ] |}.

(** Lines 161-187. *)
Fixpoint datasets (has_channel : Z) (vxw vxh : Qc) (levels : list nat)
  : M E (list Dataset) :=
  match levels with
  | [] => ret []
  | n :: rest =>
      let* d := dataset_entry has_channel vxw vxh n in
      let* ds := datasets has_channel vxw vxh rest in
      ret (d :: ds)
  end.

(** Lines 148-194. *)
Definition write_metadata (has_channel : Z) (vxw vxh : Qc) (nblevel : nat)
  : M E unit :=
  let* ds := datasets has_channel vxw vxh (seq 0 nblevel) in
  set_multiscales
    [ {| ms_version := "0.4";
         ms_axes := axes has_channel;
         ms_datasets := ds;
         ms_type := "jpeg2000";
         ms_name := "";
         ms_transforms := [ Scale (Py.list_mul 1%Qc (2 + has_channel)) ] |} ].

(** Lines 204-226. *)
Definition write_header (a : Args) (has_channel : Z) (vxw vxh : Qc) : M E unit :=
  let* a0 := getarr "0" in
  let shape := header_shape has_channel (za_shape a0) in
  let* affine :=
    lift_opt OrientationError
      (Orientation.orientation_to_affine (orientation a) vxw vxh
         (thickness_or_1 (thickness a))) in
  let affine :=
    if center a then Orientation.center_affine affine (take 2 shape) else affine in
  let* a0' := getarr "0" in
  let header :=
    tobytes E {| nh_data_shape := shape;
                 nh_data_dtype := za_dtype a0';
                 nh_qform := affine;
                 nh_sform := affine;
                 nh_xyzt_units := "micron";
                 nh_magic := String "n" (String "+" (String "2"
                               (String Ascii.zero EmptyString))) |} in
  let opt :=
    {| co_chunks := [length header];
       co_separator := "/";
       co_order := "F";
       co_dtype := "|u1";
       co_fill_value := None;
       co_compressor := None |} in
  create_dataset "nifti" shape opt (Some header).

Record Outcome := {
  oc_out : string;                       (* the path of the store *)
  oc_result : error + unit;
  oc_store : option (Group E)            (* [None]: the store was not opened *)
}.

(** The whole of [convert]; [j] is what [glymur.Jp2k(inp)] gives. *)
Definition convert (a : Args) (j : Jp2k) : Outcome :=
  let '(out, nii) := resolve_out (inp a) (out a) (nii a) in
  match literal_eval E (compressor_opt a) with
  | None => {| oc_out := out; oc_result := inl SyntaxError; oc_store := None |}
  | Some copt =>
      match get_pixelsize j with
      | inl e => {| oc_out := out; oc_result := inl e; oc_store := None |}
      | inr (vxw, vxh) =>
          let omz := empty_group in
          match make_compressor E (compressor a) copt with
          | None => {| oc_out := out; oc_result := inl CompressorError;
                       oc_store := Some omz |}
          | Some comp =>
              let opt := level_opt j (chunk a) comp in
              let nblevel := jp_num_res j in
              let has_channel := has_channel j in
              let run :=
                let* _ := write_levels opt (max_load a) j (seq 0 nblevel) in
                let* _ := write_metadata has_channel vxw vxh nblevel in
                if negb nii then ret ()
                else write_header a has_channel vxw vxh in
              let '(r, g) := run omz in
              {| oc_out := out; oc_result := r; oc_store := Some g |}
          end
      end
  end.

End Convert.

Arguments Outcome : clear implicits.

(** * A small codestream and a set of libraries to run the converter on *)

Module Demo.

Definition env : Env :=
  {| opts := unit;
     codec := string;
     literal_eval := λ s, if decide (s = "{}"%string) then Some () else None;
     make_compressor := λ name _,
       if decide (name = "blosc"%string) then Some "blosc"%string
       else if decide (name = "zlib"%string) then Some "zlib"%string
       else None;
     tobytes := λ _, replicate 540 0%Z |}.

(** The value of the pixel at [(r, c)] of plane [k] of level [l]. *)
Definition pixel (l k r c : nat) : Z := Z.of_nat (1000 * l + 100 * k + 10 * r + c).

Definition level_planes (l n H W : nat) : list (list (list Z)) :=
  (λ k, (λ r, (λ c, pixel l k r c) <$> seq 0 W) <$> seq 0 H) <$> seq 0 n.

(** Three bands, two levels: 5x7 and 3x4; voxels of half a micrometer. *)
Definition j2k : Jp2k :=
  {| jp_shape := [5; 7; 3];
     jp_dtype := "|u1";
     jp_num_res := 2;
     jp_resolution := Some (half, half);
     jp_level_hw := λ l, if l =? 0 then (5, 7) else (3, 4);
     jp_level_data := λ l, if l =? 0 then level_planes 0 3 5 7 else level_planes l 3 3 4 |}.


Definition args : Args :=
  {| inp := "/data/slice.jp2";
     out := None;
     chunk := 1024;
     compressor := "blosc";
     compressor_opt := "{}";
     max_load := Some 2%Z;
     nii := true;
     orientation := "coronal";
     center := true;
     thickness := None |}.

(** The affine of the code [coronal] (that is [LI]) for these voxels and
    a slice one unit thick. *)
Definition affine : Orientation.Affine :=
  {| Orientation.row0 :=
       {| Orientation.e0 := (-1 * half)%Qc; Orientation.e1 := 0%Qc;
          Orientation.e2 := 0%Qc; Orientation.e3 := 0%Qc |};
     Orientation.row1 :=
       {| Orientation.e0 := 0%Qc; Orientation.e1 := 0%Qc;
          Orientation.e2 := 1%Qc; Orientation.e3 := 0%Qc |};
     Orientation.row2 :=
       {| Orientation.e0 := 0%Qc; Orientation.e1 := (-1 * half)%Qc;
          Orientation.e2 := 0%Qc; Orientation.e3 := 0%Qc |};
     Orientation.row3 :=
       {| Orientation.e0 := 0%Qc; Orientation.e1 := 0%Qc;
          Orientation.e2 := 0%Qc; Orientation.e3 := 1%Qc |} |}.

(** The same run with an orientation code that is no code. *)
Definition args_xx : Args :=
  {| inp := "/data/slice.jp2";
     out := None;
     chunk := 1024;
     compressor := "blosc";
     compressor_opt := "{}";
     max_load := Some 2%Z;
     nii := true;
     orientation := "XX";
     center := true;
     thickness := None |}.

(** The same again without the header variant. *)
Definition args_xx_plain : Args :=
  {| inp := "/data/slice.jp2";
     out := None;
     chunk := 1024;
     compressor := "blosc";
     compressor_opt := "{}";
     max_load := Some 2%Z;
     nii := false;
     orientation := "XX";
     center := true;
     thickness := None |}.

(** Compressor options that do not parse. *)
Definition args_bad_opt : Args :=
  {| inp := "/data/slice.jp2";
     out := None;
     chunk := 1024;
     compressor := "blosc";
     compressor_opt := "{";
     max_load := Some 2%Z;
     nii := true;
     orientation := "coronal";
     center := true;
     thickness := None |}.

(** A codestream whose header announces no resolution level. *)
Definition j2k_flat : Jp2k :=
  {| jp_shape := [4; 4];
     jp_dtype := "|u1";
     jp_num_res := 0;
     jp_resolution := Some (half, half);
     jp_level_hw := λ _, (4, 4);
     jp_level_data := λ l, level_planes l 1 4 4 |}.

(** A codestream whose second level has no column. *)
Definition j2k_thin : Jp2k :=
  {| jp_shape := [2; 1];
     jp_dtype := "|u1";
     jp_num_res := 2;
     jp_resolution := Some (half, half);
     jp_level_hw := λ l, if l =? 0 then (2, 1) else (1, 0);
     jp_level_data := λ l, if l =? 0 then level_planes 0 1 2 1 else level_planes l 1 1 0 |}.

(** A codestream without resolution metadata. *)
Definition j2k_no_resolution : Jp2k :=
  {| jp_shape := [4; 4];
     jp_dtype := "|u1";
     jp_num_res := 1;
     jp_resolution := None;
     jp_level_hw := λ _, (4, 4);
     jp_level_data := λ l, level_planes l 1 4 4 |}.

(** The run of [args] with a zero [max_load]. *)
Definition args_zero_load : Args :=
  {| inp := "/data/slice.jp2";
     out := None;
     chunk := 1024;
     compressor := "blosc";
     compressor_opt := "{}";
     max_load := Some 0%Z;
     nii := true;
     orientation := "coronal";
     center := true;
     thickness := None |}.

(** The run of [args] with a compressor that does not exist. *)
Definition args_bad_compressor : Args :=
  {| inp := "/data/slice.jp2";
     out := None;
     chunk := 1024;
     compressor := "lzma";
     compressor_opt := "{}";
     max_load := Some 2%Z;
     nii := true;
     orientation := "coronal";
     center := true;
     thickness := None |}.

(** A plain run whose output path asks for the header variant. *)
Definition args_by_suffix : Args :=
  {| inp := "/data/slice.jp2";
     out := Some "/data/out.nii.zarr"%string;
     chunk := 1024;
     compressor := "blosc";
     compressor_opt := "{}";
     max_load := Some 2%Z;
     nii := false;
     orientation := "coronal";
     center := true;
     thickness := None |}.

End Demo.

(** * Notions used to state the properties *)

Section RegionNotions.
Context {A : Type}.

(** The element at spatial position [(r, c)] of a plane. *)
Definition px (p : list (list A)) (r c : nat) : option A := p !! r ≫= λ x, x !! c.

Definition region_ok (H W : nat) (R : region) : Prop :=
  r0 R ≤ r1 R ∧ r1 R ≤ H ∧ c0 R ≤ c1 R ∧ c1 R ≤ W.

(** Reading a region of [s] and assigning it to the same region of [d]. *)
Definition copy_plane (R : region) (s d : list (list A)) : list (list A) :=
  setitem_plane R d (getitem_plane R s).

Definition copy_plane_tiles (ts : list region) (s d : list (list A)) : list (list A) :=
  fold_left (λ d' R, copy_plane R s d') ts d.

End RegionNotions.

(** How many of the regions [ts] contain the spatial index [(r, c)]. *)
Fixpoint cover_count (ts : list region) (r c : nat) : nat :=
  match ts with
  | [] => 0
  | R :: ts' => (if in_region R r c then 1 else 0) + cover_count ts' r c
  end.

Fixpoint count_true (g : nat → bool) (l : list nat) : nat :=
  match l with
  | [] => 0
  | i :: l' => (if g i then 1 else 0) + count_true g l'
  end.

(** Row [r] of an axis of extent [H] lies in the band of tile index [i]
    exactly when [i = r / m]. *)
Definition in_band (m H r i : nat) : bool :=
  (Nat.min (i * m) H <=? r) && (r <? Nat.min ((i + 1) * m) H).

Section PipelineNotions.
Context {E : Env}.

(** The array the level loop leaves under the key of level [l]. *)
Definition level_array (j : Jp2k) (chunk : nat) (comp : codec E) (l : nat)
  : ZArray E :=
  {| za_shape := wj_shape (Wrap j l);
     za_chunks := drop 2 (jp_shape j) ++ [chunk; chunk];
     za_separator := "/";
     za_order := "F";
     za_dtype := jp_dtype j;
     za_fill_value := None;
     za_compressor := Some comp;
     za_data := Pixels (jp_level_data j l) |}.

(** The group after the levels [ls] were written into [g]. *)
Definition with_levels (j : Jp2k) (chunk : nat) (comp : codec E)
    (ls : list nat) (g : Group E) : Group E :=
  {| g_arrays :=
       fold_left (λ m l, <[Py.str l := level_array j chunk comp l]> m) ls (g_arrays g);
     g_multiscales := g_multiscales g |}.

(** The group once the level loop has run on the fresh group. *)
Definition after_levels (j : Jp2k) (chunk : nat) (comp : codec E) : Group E :=
  with_levels j chunk comp (seq 0 (jp_num_res j)) empty_group.

(** The header [convert] builds, [aff] being what
    [orientation_to_affine] gave. *)
Definition header_of (a : Args) (j : Jp2k) (aff : Orientation.Affine)
  : Nifti2Header :=
  let shape := header_shape (has_channel j) (wj_shape (Wrap j 0)) in
  let affine :=
    if center a then Orientation.center_affine aff (take 2 shape) else aff in
  {| nh_data_shape := shape;
     nh_data_dtype := jp_dtype j;
     nh_qform := affine;
     nh_sform := affine;
     nh_xyzt_units := "micron";
     nh_magic := String "n" (String "+" (String "2"
                   (String Ascii.zero EmptyString))) |}.

(** The array that holds the serialised header [h]. *)
Definition header_array (h : Nifti2Header) : ZArray E :=
  {| za_shape := [length (tobytes E h)];
     za_chunks := [length (tobytes E h)];
     za_separator := "/";
     za_order := "F";
     za_dtype := "|u1";
     za_fill_value := None;
     za_compressor := None;
     za_data := Bytes (tobytes E h) |}.

(** Lines 146-227 of [convert]: what runs once the levels are written. *)
Definition finish (a : Args) (j : Jp2k) (vxw vxh : Qc) (nii : bool) : M E unit :=
  let* _ := write_metadata (has_channel j) vxw vxh (jp_num_res j) in
  if negb nii then ret () else write_header a (has_channel j) vxw vxh.

(** The run failed and left no array behind: the store was not opened,
    or it holds no array. *)
Definition aborts_before_any_write (o : Outcome E) : Prop :=
  (∃ e, oc_result o = inl e)
  ∧ ∀ g, oc_store o = Some g → g_arrays g = ∅.

(** A computation that leaves the group as it found it. *)
Definition readonly {A} (m : M E A) : Prop := ∀ g, snd (m g) = g.

End PipelineNotions.

(** The ratio of the extents of level 0 and level [n] along the two
    spatial axes: [(H0/Hn, W0/Wn)]. *)
Definition level_ratio (j : Jp2k) (n : nat) : Qc * Qc :=
  ((ofnat (fst (jp_level_hw j 0)) / ofnat (fst (jp_level_hw j n)))%Qc,
   (ofnat (snd (jp_level_hw j 0)) / ofnat (snd (jp_level_hw j n)))%Qc).

(** The entry the metadata loop records for level [n]. *)
Definition dataset_of (j : Jp2k) (vxw vxh : Qc) (n : nat) : Dataset :=
  let '(ry, rx) := level_ratio j n in
  {| ds_path := Py.str n;
     ds_transforms :=
       [ Scale (Py.list_mul 1%Qc (has_channel j) ++ [ (ry * vxh)%Qc; (rx * vxw)%Qc ]);
         Translation (Py.list_mul 0%Qc (has_channel j)
                        ++ [ ((ry - 1) * vxh * half)%Qc;
                             ((rx - 1) * vxw * half)%Qc ]) ] |}.

(** The descriptor [convert] attaches to the group. *)
Definition multiscale_of (j : Jp2k) (vxw vxh : Qc) : Multiscale :=
  {| ms_version := "0.4";
     ms_axes := axes (has_channel j);
     ms_datasets := dataset_of j vxw vxh <$> seq 0 (jp_num_res j);
     ms_type := "jpeg2000";
     ms_name := "";
     ms_transforms := [ Scale (Py.list_mul 1%Qc (2 + has_channel j)) ] |}.

(** The arguments [a] with another [max_load]. *)
Definition set_max_load (a : Args) (ml : option Z) : Args :=
  {| inp := inp a; out := out a; chunk := chunk a; compressor := compressor a;
     compressor_opt := compressor_opt a; max_load := ml; nii := nii a;
     orientation := orientation a; center := center a; thickness := thickness a |}.

(** A shape with two singleton dimensions put after its first [k]
    (channel) dimensions. *)
Definition insert_singletons (k : nat) (shape : list nat) : list nat :=
  take k shape ++ [1; 1] ++ drop k shape.

(** [max_load] is unset or positive. *)
Definition max_load_ok (ml : option Z) : Prop :=
  match ml with Some m => (0 < m)%Z | None => True end.

(** The decoder gives, for every level, planes of the shape it announces:
    one plane per index of the leading dimensions. *)
Definition decoder_ok (j : Jp2k) : Prop :=
  ∀ l, l < jp_num_res j →
    planes_ok (product (drop 2 (jp_shape j)))
      (fst (jp_level_hw j l)) (snd (jp_level_hw j l)) (jp_level_data j l).

(** No level is empty along a spatial axis. *)
Definition levels_nonempty (j : Jp2k) : Prop :=
  ∀ l, l < jp_num_res j → fst (jp_level_hw j l) ≠ 0 ∧ snd (jp_level_hw j l) ≠ 0.

(** The characters [e] hold neither a dot nor a slash: what may follow
    the dot of an extension. *)
Definition plain_ext (e : list ascii) : Prop :=
  (∀ k, e !! k ≠ Some "."%char) ∧ (∀ k, e !! k ≠ Some "/"%char).

(** The last component of the path [p] (what follows its last slash, or
    all of [p]) holds a character that is not a dot: the component has a
    stem that an extension can be taken from. *)
Definition has_stem (p : list ascii) : Prop :=
  ∃ k c, p !! k = Some c ∧ c ≠ "."%char
         ∧ ∀ k', k ≤ k' → p !! k' ≠ Some "/"%char.

(** * Notions for the further properties *)

(** The regions that the copy of one level reads and writes, in order
    (lines 127-143): one region for the whole plane, or the tiles. *)
Definition regions_read (max_load : option Z) (H W : nat) : error + list region :=
  match max_load with
  | None => inr [whole H W]
  | Some m =>
      if (Z.of_nat H <? m)%Z && (Z.of_nat W <? m)%Z then inr [whole H W]
      else
        match Copy.ceildiv (Z.of_nat H) m, Copy.ceildiv (Z.of_nat W) m with
        | Some ni, Some nj => inr (Copy.tiles m H W ni nj)
        | _, _ => inl ZeroDivisionError
        end
  end.

(** The arguments [a] with another [nii] flag. *)
Definition set_nii (a : Args) (b : bool) : Args :=
  {| inp := inp a; out := out a; chunk := chunk a; compressor := compressor a;
     compressor_opt := compressor_opt a; max_load := max_load a; nii := b;
     orientation := orientation a; center := center a; thickness := thickness a |}.

(** The arguments [a] with other header options. *)
Definition set_header_options (a : Args) (o : string) (c : bool) (t : option Qc)
  : Args :=
  {| inp := inp a; out := out a; chunk := chunk a; compressor := compressor a;
     compressor_opt := compressor_opt a; max_load := max_load a; nii := nii a;
     orientation := o; center := c; thickness := t |}.

(** The descriptor of a codestream without any level. *)
Definition empty_multiscale (j : Jp2k) : Multiscale :=
  {| ms_version := "0.4";
     ms_axes := axes (has_channel j);
     ms_datasets := [];
     ms_type := "jpeg2000";
     ms_name := "";
     ms_transforms := [ Scale (Py.list_mul 1%Qc (2 + has_channel j)) ] |}.

(** The suffix of a derived output path. *)
Definition out_suffix (nii : bool) : string :=
  if nii then ".nii.zarr"%string else ".ome.zarr"%string.

(** A level array that was created and never written to. *)
Definition unwritten_level_array {E : Env} (j : Jp2k) (chunk : nat)
    (comp : codec E) (l : nat) : ZArray E :=
  {| za_shape := wj_shape (Wrap j l);
     za_chunks := drop 2 (jp_shape j) ++ [chunk; chunk];
     za_separator := "/";
     za_order := "F";
     za_dtype := jp_dtype j;
     za_fill_value := None;
     za_compressor := Some comp;
     za_data := blank (wj_shape (Wrap j l)) |}.

(** * Properties *)

(** * Lemmas on slices and region assignment *)

Section SliceFacts.
Context {A : Type}.
Implicit Types (l mid : list A).

Lemma lookup_slice l a b k :
  Py.slice a b l !! k = if decide (k < b - a) then l !! (a + k) else None.
Proof.
  unfold Py.slice. rewrite lookup_take.
  destruct (decide (k < b - a)); [apply lookup_drop | reflexivity].
Qed.

Lemma length_slice l a b : b ≤ length l → length (Py.slice a b l) = b - a.
Proof. intros Hb. unfold Py.slice. rewrite length_take, length_drop. lia. Qed.

Lemma lookup_splice l mid a b i :
  a ≤ b → b ≤ length l → length mid = b - a →
  (take a l ++ mid ++ drop b l) !! i =
    if decide (a ≤ i < b) then mid !! (i - a) else l !! i.
Proof.
  intros Hab Hb Hmid.
  assert (Hta : length (take a l) = a) by (rewrite length_take; lia).
  destruct (decide (a ≤ i < b)) as [Hin | Hout].
  - rewrite lookup_app_r by lia. rewrite Hta.
    apply lookup_app_l. lia.
  - destruct (decide (i < a)) as [Hlt | Hge].
    + rewrite lookup_app_l by lia. apply lookup_take_lt. lia.
    + rewrite lookup_app_r by lia. rewrite Hta.
      rewrite lookup_app_r by lia. rewrite Hmid, lookup_drop.
      f_equal. lia.
Qed.

Lemma length_splice l mid a b :
  a ≤ b → b ≤ length l → length mid = b - a →
  length (take a l ++ mid ++ drop b l) = length l.
Proof.
  intros Hab Hb Hmid.
  rewrite !length_app, length_take, length_drop, Hmid. lia.
Qed.

End SliceFacts.

Section RegionFacts.
Context {A : Type}.
Implicit Types (p q s d : list (list A)) (R : region).

Lemma plane_ok_row H W p r x : plane_ok H W p → p !! r = Some x → length x = W.
Proof.
  intros [_ Hall] Hr. rewrite Forall_lookup in Hall. exact (Hall r x Hr).
Qed.

Lemma plane_ok_lookup H W p r : plane_ok H W p → r < H → ∃ x, p !! r = Some x ∧ length x = W.
Proof.
  intros Hp Hr. destruct (lookup_lt_is_Some_2 p r) as [x Hx].
  - destruct Hp as [-> _]. exact Hr.
  - exists x. split; [exact Hx | eapply plane_ok_row; eauto].
Qed.

Lemma plane_ext H W p q :
  plane_ok H W p → plane_ok H W q →
  (∀ r c, r < H → c < W → px p r c = px q r c) → p = q.
Proof.
  intros Hp Hq Heq. apply list_eq. intros r.
  destruct (decide (r < H)) as [Hr | Hr].
  - destruct (plane_ok_lookup H W p r Hp Hr) as (x & Hx & Hlx).
    destruct (plane_ok_lookup H W q r Hq Hr) as (y & Hy & Hly).
    rewrite Hx, Hy. f_equal. apply list_eq. intros c.
    destruct (decide (c < W)) as [Hc | Hc].
    + specialize (Heq r c Hr Hc). unfold px in Heq.
      rewrite Hx, Hy in Heq. exact Heq.
    + rewrite !lookup_ge_None_2 by lia. reflexivity.
  - destruct Hp as [Hlp _], Hq as [Hlq _].
    rewrite !lookup_ge_None_2 by lia. reflexivity.
Qed.

Lemma getitem_plane_ok H W R s :
  region_ok H W R → plane_ok H W s →
  plane_ok (r1 R - r0 R) (c1 R - c0 R) (getitem_plane R s).
Proof.
  intros (Hr & HrH & Hc & HcW) Hs. pose proof Hs as [Hls Hall].
  unfold getitem_plane. split.
  - rewrite length_fmap. apply length_slice. lia.
  - rewrite Forall_fmap. rewrite Forall_lookup. intros k x Hk. simpl.
    rewrite lookup_slice in Hk. destruct (decide (k < r1 R - r0 R)); [|discriminate].
    apply length_slice. erewrite plane_ok_row by eauto. lia.
Qed.

Lemma copy_plane_row H W R s d r :
  region_ok H W R → plane_ok H W s → plane_ok H W d →
  copy_plane R s d !! r =
    if decide (r0 R ≤ r < r1 R)
    then x ← d !! r; y ← s !! r; Some (set_row R x (Py.slice (c0 R) (c1 R) y))
    else d !! r.
Proof.
  intros (Hr & HrH & Hc & HcW) Hs Hd.
  pose proof Hs as [Hls _]. pose proof Hd as [Hld _].
  unfold copy_plane, setitem_plane, getitem_plane.
  rewrite lookup_splice.
  - destruct (decide (r0 R ≤ r < r1 R)) as [Hin|]; [|reflexivity].
    rewrite lookup_zip_with, list_lookup_fmap, !lookup_slice.
    destruct (decide (r - r0 R < r1 R - r0 R)); [|lia].
    replace (r0 R + (r - r0 R)) with r by lia.
    destruct (d !! r); simpl; [|reflexivity].
    destruct (s !! r); reflexivity.
  - exact Hr.
  - lia.
  - rewrite length_zip_with, length_fmap, !length_slice by lia. lia.
Qed.

Lemma copy_plane_ok H W R s d :
  region_ok H W R → plane_ok H W s → plane_ok H W d →
  plane_ok H W (copy_plane R s d).
Proof.
  intros HR Hs Hd. pose proof HR as (Hr & HrH & Hc & HcW).
  pose proof Hs as [Hls _]. pose proof Hd as [Hld _]. split.
  - unfold copy_plane, setitem_plane, getitem_plane.
    rewrite length_splice; [exact Hld | exact Hr | lia |].
    rewrite length_zip_with, length_fmap, !length_slice by lia. lia.
  - rewrite Forall_lookup. intros r x Hx.
    rewrite (copy_plane_row H W) in Hx by assumption.
    destruct (decide (r0 R ≤ r < r1 R)) as [Hin|].
    + destruct (d !! r) as [dr|] eqn:Hdr; [|discriminate]. simpl in Hx.
      destruct (s !! r) as [sr|] eqn:Hsr; [|discriminate]. simpl in Hx.
      injection Hx as <-. unfold set_row.
      apply (plane_ok_row H W d r dr Hd) in Hdr.
      apply (plane_ok_row H W s r sr Hs) in Hsr.
      rewrite length_splice; [exact Hdr | exact Hc | lia |].
      apply length_slice. lia.
    + eapply plane_ok_row; eauto.
Qed.

Lemma copy_plane_px H W R s d r c :
  region_ok H W R → plane_ok H W s → plane_ok H W d →
  r < H → c < W →
  px (copy_plane R s d) r c = if in_region R r c then px s r c else px d r c.
Proof.
  intros HR Hs Hd Hr Hc. pose proof HR as (Hr01 & HrH & Hc01 & HcW).
  unfold px at 1. rewrite (copy_plane_row H W) by assumption.
  destruct (plane_ok_lookup H W s r Hs Hr) as (sr & Hsr & Hlsr).
  destruct (plane_ok_lookup H W d r Hd Hr) as (dr & Hdr & Hldr).
  unfold px, in_region. rewrite Hsr, Hdr. simpl.
  destruct (decide (r0 R ≤ r < r1 R)) as [Hin | Hout].
  - simpl. unfold set_row.
    rewrite lookup_splice; [| exact Hc01 | lia | apply length_slice; lia].
    replace (r0 R <=? r) with true by (symmetry; apply Nat.leb_le; lia).
    replace (r <? r1 R) with true by (symmetry; apply Nat.ltb_lt; lia).
    simpl. destruct (decide (c0 R ≤ c < c1 R)) as [Hcin | Hcout].
    + replace (c0 R <=? c) with true by (symmetry; apply Nat.leb_le; lia).
      replace (c <? c1 R) with true by (symmetry; apply Nat.ltb_lt; lia).
      simpl. rewrite lookup_slice.
      destruct (decide (c - c0 R < c1 R - c0 R)); [|lia].
      f_equal. lia.
    + destruct (c0 R <=? c) eqn:E1; simpl; [|reflexivity].
      destruct (c <? c1 R) eqn:E2; simpl; [|reflexivity].
      apply Nat.leb_le in E1. apply Nat.ltb_lt in E2. lia.
  - simpl.
    destruct (r0 R <=? r) eqn:E1; simpl; [|reflexivity].
    destruct (r <? r1 R) eqn:E2; simpl; [|reflexivity].
    apply Nat.leb_le in E1. apply Nat.ltb_lt in E2. lia.
Qed.

End RegionFacts.

(** * A sequence of tile copies *)

Lemma cover_count_app ts1 ts2 r c :
  cover_count (ts1 ++ ts2) r c = cover_count ts1 r c + cover_count ts2 r c.
Proof. induction ts1 as [|R ts1 IH]; simpl; [reflexivity | rewrite IH; lia]. Qed.

Lemma cover_count_line (f : nat → region) (b : nat → bool) (a : bool) lj r c :
  (∀ j, in_region (f j) r c = a && b j) →
  cover_count (lj ≫= λ j, [f j]) r c = if a then count_true b lj else 0.
Proof.
  intros Hf. induction lj as [|j lj IH].
  - destruct a; reflexivity.
  - rewrite bind_cons. simpl. rewrite IH, Hf. destruct a; simpl; reflexivity.
Qed.

Lemma cover_count_grid (f : nat → nat → region) (a b : nat → bool) li lj r c :
  (∀ i j, in_region (f i j) r c = a i && b j) →
  cover_count (li ≫= λ i, lj ≫= λ j, [f i j]) r c
  = count_true a li * count_true b lj.
Proof.
  intros Hf. induction li as [|i li IH]; [reflexivity|].
  rewrite bind_cons, cover_count_app, IH. simpl.
  rewrite (cover_count_line (f i) b (a i)) by (intros j; apply Hf).
  destruct (a i); lia.
Qed.

Lemma count_true_seq_none g s len :
  (∀ i, s ≤ i < s + len → g i = false) → count_true g (seq s len) = 0.
Proof.
  revert s. induction len as [|len IH]; intros s Hg; simpl; [reflexivity|].
  rewrite Hg by lia. rewrite IH; [reflexivity|]. intros i Hi. apply Hg. lia.
Qed.

Lemma count_true_seq_unique g k s len :
  s ≤ k < s + len → (∀ i, g i = true ↔ i = k) →
  count_true g (seq s len) = 1.
Proof.
  revert s. induction len as [|len IH]; intros s Hk Hg; simpl; [lia|].
  destruct (decide (s = k)) as [-> | Hne].
  - replace (g k) with true by (symmetry; apply Hg; reflexivity).
    rewrite count_true_seq_none; [reflexivity|].
    intros i Hi. destruct (g i) eqn:E; [|reflexivity].
    apply Hg in E. lia.
  - destruct (g s) eqn:E; [apply Hg in E; lia|].
    simpl. apply IH; [lia | exact Hg].
Qed.

Section TileFacts.
Context {A : Type}.
Implicit Types (s d : list (list A)) (src dst : list (list (list A))).

Lemma copy_plane_tiles_ok H W ts s d :
  Forall (region_ok H W) ts → plane_ok H W s → plane_ok H W d →
  plane_ok H W (copy_plane_tiles ts s d).
Proof.
  intros Hts Hs. revert d. induction Hts as [|R ts HR Hts IH]; intros d Hd; simpl.
  - exact Hd.
  - apply IH. apply copy_plane_ok; assumption.
Qed.

Lemma copy_plane_tiles_px H W ts s d r c :
  Forall (region_ok H W) ts → plane_ok H W s → plane_ok H W d →
  r < H → c < W →
  px (copy_plane_tiles ts s d) r c =
    if decide (cover_count ts r c = 0) then px d r c else px s r c.
Proof.
  intros Hts Hs Hd Hr Hc. revert d Hd.
  induction Hts as [|R ts HR Hts IH]; intros d Hd.
  - reflexivity.
  - change (copy_plane_tiles (R :: ts) s d)
      with (copy_plane_tiles ts s (copy_plane R s d)).
    rewrite IH by (apply copy_plane_ok; assumption).
    rewrite (copy_plane_px H W) by assumption. simpl.
    destruct (in_region R r c); simpl.
    + destruct (decide (cover_count ts r c = 0)); reflexivity.
    + reflexivity.
Qed.

(** Tiles that leave no index out rebuild the source plane. *)
Lemma copy_plane_tiles_all H W ts s d :
  Forall (region_ok H W) ts → plane_ok H W s → plane_ok H W d →
  (∀ r c, r < H → c < W → cover_count ts r c ≠ 0) →
  copy_plane_tiles ts s d = s.
Proof.
  intros Hts Hs Hd Hcov. apply (plane_ext H W).
  - apply copy_plane_tiles_ok; assumption.
  - exact Hs.
  - intros r c Hr Hc. rewrite (copy_plane_tiles_px H W) by assumption.
    destruct (decide (cover_count ts r c = 0)) as [E|_]; [|reflexivity].
    exfalso. exact (Hcov r c Hr Hc E).
Qed.

Lemma planes_ok_lookup n H W src k :
  planes_ok n H W src → k < n → ∃ s, src !! k = Some s ∧ plane_ok H W s.
Proof.
  intros [Hl Hall] Hk. destruct (lookup_lt_is_Some_2 src k) as [s Hs]; [lia|].
  exists s. split; [exact Hs|]. rewrite Forall_lookup in Hall. exact (Hall k s Hs).
Qed.

Lemma planes_ok_zip n H W (f : list (list A) → list (list A) → list (list A)) dst src :
  planes_ok n H W src → planes_ok n H W dst →
  (∀ s d, plane_ok H W s → plane_ok H W d → plane_ok H W (f d s)) →
  planes_ok n H W (zip_with f dst src).
Proof.
  intros [Hls Hs] [Hld Hd] Hf. split.
  - rewrite length_zip_with. lia.
  - rewrite Forall_lookup. intros k x Hx.
    apply lookup_zip_with_Some in Hx as (d & s & -> & Hdk & Hsk).
    rewrite Forall_lookup in Hs, Hd. apply Hf; eauto.
Qed.

Lemma copy_region_spec n H W R src dst :
  region_ok H W R → planes_ok n H W src → planes_ok n H W dst →
  Copy.copy_region H W R src dst
  = Some (zip_with (λ d s, copy_plane R s d) dst src).
Proof.
  intros HR Hsrc Hdst. pose proof HR as (Hr & HrH & Hc & HcW).
  unfold Copy.copy_region, setitem.
  rewrite decide_True.
  - f_equal. unfold getitem. rewrite zip_with_fmap_r. reflexivity.
  - destruct Hsrc as [Hls Hs], Hdst as [Hld Hd]. split.
    + unfold getitem. rewrite length_fmap. lia.
    + unfold getitem. rewrite Forall_fmap.
      eapply Forall_impl; [exact Hs|]. intros s Hsok. simpl.
      rewrite !Nat.min_l by lia. apply (getitem_plane_ok H W); assumption.
Qed.

Lemma zip_with_twice {B C : Type} (f g : B → C → B) (xs : list B) (ys : list C) :
  zip_with g (zip_with f xs ys) ys = zip_with (λ x y, g (f x y) y) xs ys.
Proof.
  revert ys. induction xs as [|x xs IH]; intros [|y ys]; simpl; try reflexivity.
  f_equal. apply IH.
Qed.

Lemma copy_tiles_spec n H W ts src dst :
  Forall (region_ok H W) ts → planes_ok n H W src → planes_ok n H W dst →
  Copy.copy_tiles H W ts src dst
  = Some (zip_with (λ d s, copy_plane_tiles ts s d) dst src).
Proof.
  intros Hts Hsrc. revert dst.
  induction Hts as [|R ts HR Hts IH]; intros dst Hdst; simpl.
  - f_equal. destruct Hsrc as [Hls _], Hdst as [Hld _].
    apply list_eq. intros k. rewrite lookup_zip_with.
    destruct (dst !! k) as [d|] eqn:Hd; simpl.
    + destruct (lookup_lt_is_Some_2 src k) as [s ->]; [|reflexivity].
      apply lookup_lt_Some in Hd. lia.
    + reflexivity.
  - rewrite (copy_region_spec n H W) by assumption.
    rewrite IH.
    + f_equal. apply zip_with_twice.
    + apply planes_ok_zip; [assumption..|].
      intros s d Hs Hd. apply copy_plane_ok; assumption.
Qed.

Lemma copy_tiles_all n H W ts src dst :
  Forall (region_ok H W) ts → planes_ok n H W src → planes_ok n H W dst →
  (∀ r c, r < H → c < W → cover_count ts r c ≠ 0) →
  Copy.copy_tiles H W ts src dst = Some src.
Proof.
  intros Hts Hsrc Hdst Hcov. rewrite (copy_tiles_spec n H W) by assumption.
  f_equal. apply list_eq. intros k. rewrite lookup_zip_with.
  destruct (decide (k < n)) as [Hk | Hk].
  - destruct (planes_ok_lookup n H W src k Hsrc Hk) as (s & Hs & Hsok).
    destruct (planes_ok_lookup n H W dst k Hdst Hk) as (d & Hd & Hdok).
    rewrite Hs, Hd. simpl. f_equal.
    apply (copy_plane_tiles_all H W); assumption.
  - destruct Hsrc as [Hls _], Hdst as [Hld _].
    rewrite (lookup_ge_None_2 dst) by lia. rewrite (lookup_ge_None_2 src) by lia.
    reflexivity.
Qed.

End TileFacts.

(** * The grid of tiles of a positive [max_load] *)

Lemma norm_index_nonneg len x : (0 ≤ x)%Z → Py.norm_index len x = Nat.min (Z.to_nat x) len.
Proof.
  intros Hx. unfold Py.norm_index.
  destruct (x <? 0)%Z eqn:E; [apply Z.ltb_lt in E; lia | reflexivity].
Qed.

(** With a positive [max_load] no bound is negative: the tile is
    [min(i*m, H) : min((i+1)*m, H)] by [min(j*m, W) : min((j+1)*m, W)]. *)
Lemma tile_pos m H W i j :
  (0 < m)%Z →
  Copy.tile m H W i j =
    {| r0 := Nat.min (i * Z.to_nat m) H; r1 := Nat.min ((i + 1) * Z.to_nat m) H;
       c0 := Nat.min (j * Z.to_nat m) W; c1 := Nat.min ((j + 1) * Z.to_nat m) W |}.
Proof.
  intros Hm. unfold Copy.tile.
  rewrite !norm_index_nonneg by nia.
  f_equal.
  - rewrite Z2Nat.inj_mul, Nat2Z.id by lia. reflexivity.
  - rewrite Z2Nat.inj_min, Z2Nat.inj_mul, Z2Nat.inj_add, !Nat2Z.id by lia.
    change (Z.to_nat 1) with 1. lia.
  - rewrite Z2Nat.inj_mul, Nat2Z.id by lia. reflexivity.
  - rewrite Z2Nat.inj_min, Z2Nat.inj_mul, Z2Nat.inj_add, !Nat2Z.id by lia.
    change (Z.to_nat 1) with 1. lia.
Qed.

Lemma tile_region_ok m H W i j : (0 < m)%Z → region_ok H W (Copy.tile m H W i j).
Proof.
  intros Hm. rewrite tile_pos by exact Hm. unfold region_ok. simpl.
  repeat split; nia.
Qed.

Lemma tiles_region_ok m H W ni nj :
  (0 < m)%Z → Forall (region_ok H W) (Copy.tiles m H W ni nj).
Proof.
  intros Hm. unfold Copy.tiles. rewrite Forall_forall. intros R HR.
  apply list_elem_of_bind in HR as (i & HR & _).
  apply list_elem_of_bind in HR as (j & HR & _).
  apply list_elem_of_singleton in HR as ->. apply tile_region_ok. exact Hm.
Qed.

Lemma in_band_iff m H r i :
  0 < m → r < H → in_band m H r i = true ↔ i = r / m.
Proof.
  intros Hm Hr. unfold in_band.
  rewrite andb_true_iff, Nat.leb_le, Nat.ltb_lt.
  pose proof (Nat.div_mod_eq r m) as Hdm.
  pose proof (Nat.mod_upper_bound r m ltac:(lia)) as Hmod.
  split.
  - intros [Hlo Hhi]. nia.
  - intros ->. split; nia.
Qed.

Lemma in_region_tile m H W i j r c :
  (0 < m)%Z →
  in_region (Copy.tile m H W i j) r c
  = in_band (Z.to_nat m) H r i && in_band (Z.to_nat m) W c j.
Proof.
  intros Hm. rewrite tile_pos by exact Hm. unfold in_region, in_band. simpl.
  rewrite !andb_assoc. reflexivity.
Qed.

Lemma ceildiv_pos x m n :
  (0 < m)%Z → Copy.ceildiv x m = Some n → (x ≤ n * m ∧ n * m < x + m)%Z.
Proof.
  intros Hm. unfold Copy.ceildiv.
  destruct (m =? 0)%Z eqn:E; [apply Z.eqb_eq in E; lia|].
  intros [= <-].
  pose proof (Z.div_mod (- x) m ltac:(lia)) as Hdm.
  pose proof (Z.mod_pos_bound (- x) m Hm) as Hmod.
  nia.
Qed.

Lemma ceildiv_covers (H : nat) m n :
  (0 < m)%Z → Copy.ceildiv (Z.of_nat H) m = Some n →
  ∀ r, r < H → r / Z.to_nat m < Z.to_nat n.
Proof.
  intros Hm Hn r Hr. apply ceildiv_pos in Hn as [Hlo _]; [|exact Hm].
  assert (0 ≤ n)%Z by nia.
  apply Nat.Div0.div_lt_upper_bound.
  apply Nat2Z.inj_lt. rewrite Nat2Z.inj_mul, !Z2Nat.id by lia. nia.
Qed.

(** Every spatial index of the level lies in exactly one tile. *)
Lemma cover_count_tiles m H W ni nj r c :
  (0 < m)%Z →
  Copy.ceildiv (Z.of_nat H) m = Some ni → Copy.ceildiv (Z.of_nat W) m = Some nj →
  r < H → c < W →
  cover_count (Copy.tiles m H W ni nj) r c = 1.
Proof.
  intros Hm Hni Hnj Hr Hc. unfold Copy.tiles.
  rewrite (cover_count_grid _ (in_band (Z.to_nat m) H r) (in_band (Z.to_nat m) W c))
    by (intros i j; apply in_region_tile; exact Hm).
  unfold Py.range.
  rewrite (count_true_seq_unique _ (r / Z.to_nat m)).
  - rewrite (count_true_seq_unique _ (c / Z.to_nat m)); [reflexivity | |].
    + pose proof (ceildiv_covers W m nj Hm Hnj c Hc). lia.
    + intros j. apply in_band_iff; lia.
  - pose proof (ceildiv_covers H m ni Hm Hni r Hr). lia.
  - intros i. apply in_band_iff; lia.
Qed.

Lemma cover_count_whole H W r c : r < H → c < W → cover_count [whole H W] r c = 1.
Proof.
  intros Hr Hc. simpl. unfold in_region, whole. simpl.
  replace (r <? H) with true by (symmetry; apply Nat.ltb_lt; lia).
  replace (c <? W) with true by (symmetry; apply Nat.ltb_lt; lia).
  reflexivity.
Qed.

Section CopyLevel.
Context {A : Type}.
Implicit Types (subdat array : list (list (list A))).

Lemma copy_whole_spec n H W subdat array :
  planes_ok n H W subdat → planes_ok n H W array →
  Copy.copy_region H W (whole H W) subdat array = Some subdat.
Proof.
  intros Hs Hd.
  assert (Hall : Copy.copy_tiles H W [whole H W] subdat array = Some subdat).
  { apply (copy_tiles_all n); try assumption.
    - constructor; [|constructor]. unfold region_ok, whole. simpl. lia.
    - intros r c Hr Hc. rewrite cover_count_whole by assumption. lia. }
  simpl in Hall.
  destruct (Copy.copy_region H W (whole H W) subdat array); congruence.
Qed.

Lemma copy_level_None n H W subdat array :
  planes_ok n H W subdat → planes_ok n H W array →
  Copy.copy_level None H W subdat array = inr subdat.
Proof.
  intros Hs Hd. unfold Copy.copy_level.
  rewrite (copy_whole_spec n) by assumption. reflexivity.
Qed.

Lemma copy_level_Some n H W m subdat array :
  (0 < m)%Z → planes_ok n H W subdat → planes_ok n H W array →
  Copy.copy_level (Some m) H W subdat array = inr subdat.
Proof.
  intros Hm Hs Hd. unfold Copy.copy_level.
  rewrite (copy_whole_spec n) by assumption.
  destruct ((Z.of_nat H <? m)%Z && (Z.of_nat W <? m)%Z); [reflexivity|].
  destruct (Copy.ceildiv (Z.of_nat H) m) as [ni|] eqn:Hni.
  2:{ unfold Copy.ceildiv in Hni.
      destruct (m =? 0)%Z eqn:E; [apply Z.eqb_eq in E; lia | discriminate]. }
  destruct (Copy.ceildiv (Z.of_nat W) m) as [nj|] eqn:Hnj.
  2:{ unfold Copy.ceildiv in Hnj.
      destruct (m =? 0)%Z eqn:E; [apply Z.eqb_eq in E; lia | discriminate]. }
  rewrite (copy_tiles_all n H W); try assumption; [reflexivity | |].
  - apply tiles_region_ok. exact Hm.
  - intros r c Hr Hc. rewrite (cover_count_tiles m H W ni nj) by assumption. lia.
Qed.

End CopyLevel.

(** * Decimal keys *)

Lemma str_inj a b : Py.str a = Py.str b → a = b.
Proof.
  unfold Py.str. intros Heq.
  apply (f_equal NilEmpty.uint_of_string) in Heq.
  rewrite !NilEmpty.usu in Heq. injection Heq as Heq.
  apply Unsigned.to_uint_inj. exact Heq.
Qed.

Lemma str_ne_nifti n : Py.str n ≠ "nifti"%string.
Proof.
  unfold Py.str. intros Heq.
  apply (f_equal NilEmpty.uint_of_string) in Heq.
  rewrite NilEmpty.usu in Heq. discriminate Heq.
Qed.

Lemma str_0 : Py.str 0 = "0"%string.
Proof. reflexivity. Qed.

(** * Level views *)

Section LevelFacts.
Context {E : Env}.
Implicit Types (j : Jp2k) (g : Group E).

Lemma wj_shape_eq j l :
  wj_shape (Wrap j l)
  = drop 2 (jp_shape j) ++ [fst (jp_level_hw j l); snd (jp_level_hw j l)].
Proof. unfold wj_shape. simpl. destruct (jp_level_hw j l); reflexivity. Qed.

Lemma index_neg_app2 (lead : list nat) h w :
  Py.index_neg (lead ++ [h; w]) 2 = Some h ∧ Py.index_neg (lead ++ [h; w]) 1 = Some w.
Proof.
  unfold Py.index_neg. rewrite length_app. simpl.
  rewrite !decide_True by lia. split.
  - rewrite lookup_app_r by lia. replace (length lead + 2 - 2 - length lead) with 0 by lia.
    reflexivity.
  - rewrite lookup_app_r by lia. replace (length lead + 2 - 1 - length lead) with 1 by lia.
    reflexivity.
Qed.

Lemma last2_app2 (lead : list nat) h w : Py.last2 (lead ++ [h; w]) = [h; w].
Proof.
  unfold Py.last2. rewrite length_app. simpl.
  replace (length lead + 2 - 2) with (length lead) by lia.
  rewrite drop_app_length. reflexivity.
Qed.

Lemma blank_app2 (lead : list nat) h w :
  blank (lead ++ [h; w])
  = Pixels (replicate (product lead) (replicate h (replicate w 0%Z))).
Proof.
  unfold blank. rewrite length_app. simpl.
  rewrite decide_True by lia.
  replace (length lead + 2 - 2) with (length lead) by lia.
  rewrite take_app_length.
  rewrite !app_nth2 by lia.
  replace (length lead - length lead) with 0 by lia.
  replace (length lead + 2 - 1 - length lead) with 1 by lia.
  reflexivity.
Qed.

Lemma planes_ok_replicate {A} n h w (x : A) :
  planes_ok n h w (replicate n (replicate h (replicate w x))).
Proof.
  split; [apply length_replicate|].
  apply Forall_replicate. split; [apply length_replicate|].
  apply Forall_replicate. apply length_replicate.
Qed.

End LevelFacts.

(** * The level loop *)

Section LevelLoop.
Context {E : Env}.
Implicit Types (j : Jp2k) (g : Group E).

Lemma bind_inr {A B} (m : M E A) (k : A → M E B) g a g' :
  m g = (inr a, g') → bind m k g = k a g'.
Proof. intros H. unfold bind. rewrite H. reflexivity. Qed.

Lemma bind_inl {A B} (m : M E A) (k : A → M E B) g e g' :
  m g = (inl e, g') → bind m k g = (inl e, g').
Proof. intros H. unfold bind. rewrite H. reflexivity. Qed.

Lemma write_level_ok j chunk comp ml l g :
  g_arrays g !! Py.str l = None →
  max_load_ok ml →
  planes_ok (product (drop 2 (jp_shape j)))
    (fst (jp_level_hw j l)) (snd (jp_level_hw j l)) (jp_level_data j l) →
  write_level (level_opt j chunk comp) ml j l g
  = (inr (), with_levels j chunk comp [l] g).
Proof.
  intros Hfresh Hml Hdata. unfold write_level.
  set (lead := drop 2 (jp_shape j)) in *.
  set (h := fst (jp_level_hw j l)) in *. set (w := snd (jp_level_hw j l)) in *.
  assert (Hshape : wj_shape (Wrap j l) = lead ++ [h; w]) by apply wj_shape_eq.
  erewrite bind_inr; cycle 1.
  { unfold create_dataset. rewrite Hfresh. simpl co_chunks. fold lead.
    rewrite decide_False; [reflexivity|].
    rewrite Hshape, !length_app. simpl. lia. }
  erewrite bind_inr; cycle 1.
  { unfold getarr. simpl g_arrays. rewrite lookup_insert_eq. reflexivity. }
  destruct (index_neg_app2 lead h w) as [H2 H1].
  rewrite Hshape, H2, H1. simpl lift_opt.
  unfold bind at 1. unfold ret at 1. unfold bind at 1. unfold ret at 1.
  simpl za_data. rewrite blank_app2. unfold wj_data.
  cbn [za_data wj_j2k wj_level].
  assert (Hcopy : Copy.copy_level ml h w (jp_level_data j l)
                    (replicate (product lead) (replicate h (replicate w 0%Z)))
                  = inr (jp_level_data j l)).
  { destruct ml as [m|].
    - apply (copy_level_Some (product lead)); [exact Hml | exact Hdata |].
      apply planes_ok_replicate.
    - apply (copy_level_None (product lead)); [exact Hdata |].
      apply planes_ok_replicate. }
  rewrite Hcopy. simpl lift. unfold bind, ret, set_data. simpl.
  unfold with_levels, level_array. simpl. f_equal. f_equal.
  rewrite insert_insert_eq. fold lead. rewrite Hshape.
  rewrite length_app. simpl. rewrite drop_ge by (rewrite length_app; simpl; lia).
  rewrite app_nil_r. reflexivity.
Qed.

Lemma with_levels_app j chunk comp ls1 ls2 g :
  with_levels j chunk comp (ls1 ++ ls2) g
  = with_levels j chunk comp ls2 (with_levels j chunk comp ls1 g).
Proof. unfold with_levels. simpl. rewrite fold_left_app. reflexivity. Qed.

Lemma with_levels_lookup_other j chunk comp ls g key :
  (∀ l, l ∈ ls → Py.str l ≠ key) →
  g_arrays (with_levels j chunk comp ls g) !! key = g_arrays g !! key.
Proof.
  revert g. induction ls as [|l ls IH]; intros g Hne; [reflexivity|].
  change (l :: ls) with ([l] ++ ls). rewrite with_levels_app, IH.
  - simpl. apply lookup_insert_ne. apply Hne. left.
  - intros l' Hl'. apply Hne. right. exact Hl'.
Qed.

Lemma with_levels_lookup j chunk comp ls g l :
  NoDup ls → l ∈ ls →
  g_arrays (with_levels j chunk comp ls g) !! Py.str l
  = Some (level_array j chunk comp l).
Proof.
  revert g. induction ls as [|l0 ls IH]; intros g Hnd Hl.
  - inversion Hl.
  - change (l0 :: ls) with ([l0] ++ ls). rewrite with_levels_app.
    apply NoDup_cons in Hnd as [Hnotin Hnd].
    apply elem_of_cons in Hl as [-> | Hl].
    + rewrite with_levels_lookup_other.
      * simpl. apply lookup_insert_eq.
      * intros l' Hl' Heq. apply str_inj in Heq. subst l'. exact (Hnotin Hl').
    + apply IH; assumption.
Qed.

Lemma write_levels_ok j chunk comp ml k n g :
  k + n ≤ jp_num_res j →
  (∀ l, k ≤ l → g_arrays g !! Py.str l = None) →
  max_load_ok ml → decoder_ok j →
  write_levels (level_opt j chunk comp) ml j (seq k n) g
  = (inr (), with_levels j chunk comp (seq k n) g).
Proof.
  intros Hkn Hfresh Hml Hdec. revert k g Hkn Hfresh.
  induction n as [|n IH]; intros k g Hkn Hfresh.
  - simpl. unfold ret, with_levels. simpl. destruct g; reflexivity.
  - simpl seq. simpl write_levels.
    erewrite bind_inr; cycle 1.
    { apply write_level_ok; [apply Hfresh; lia | exact Hml | apply Hdec; lia]. }
    rewrite IH.
    + change (k :: seq (S k) n) with ([k] ++ seq (S k) n).
      rewrite with_levels_app. reflexivity.
    + lia.
    + intros l Hl. rewrite with_levels_lookup_other.
      * apply Hfresh. lia.
      * intros l' Hl' Heq. apply list_elem_of_singleton in Hl'. subst l'.
        apply str_inj in Heq. lia.
Qed.

End LevelLoop.

(** * The metadata loop *)

Section Metadata.
Context {E : Env}.
Implicit Types (j : Jp2k) (g : Group E).

Lemma readonly_ret {A} (a : A) : readonly (E:=E) (ret a).
Proof. intros g. reflexivity. Qed.

Lemma readonly_lift {A} (r : error + A) : readonly (E:=E) (lift r).
Proof. destruct r; intros g; reflexivity. Qed.

Lemma readonly_lift_opt {A} e (o : option A) : readonly (E:=E) (lift_opt e o).
Proof. destruct o; intros g; reflexivity. Qed.

Lemma readonly_getarr name : readonly (E:=E) (getarr name).
Proof. intros g. unfold getarr. destruct (g_arrays g !! name); reflexivity. Qed.

Lemma readonly_bind {A B} (m : M E A) (k : A → M E B) :
  readonly m → (∀ a, readonly (k a)) → readonly (bind m k).
Proof.
  intros Hm Hk g. unfold bind. specialize (Hm g).
  destruct (m g) as [[e|a] g']; simpl in *; subst g'; [reflexivity | apply Hk].
Qed.

Lemma readonly_dataset_entry hc vxw vxh n :
  readonly (E:=E) (dataset_entry hc vxw vxh n).
Proof.
  unfold dataset_entry.
  repeat (first [ apply readonly_getarr | apply readonly_lift_opt
                | apply readonly_lift | apply readonly_ret
                | apply readonly_bind; [|intros ?] ]).
Qed.

Lemma readonly_datasets hc vxw vxh ls :
  readonly (E:=E) (datasets hc vxw vxh ls).
Proof.
  induction ls as [|n ls IH]; simpl.
  - apply readonly_ret.
  - apply readonly_bind; [apply readonly_dataset_entry | intros d].
    apply readonly_bind; [exact IH | intros ds]. apply readonly_ret.
Qed.

(** Whatever it returns, the metadata step changes no array. *)
Lemma write_metadata_arrays hc vxw vxh n g :
  g_arrays (snd (write_metadata hc vxw vxh n g)) = g_arrays g.
Proof.
  unfold write_metadata, bind.
  pose proof (readonly_datasets hc vxw vxh (seq 0 n) g) as Hro.
  destruct (datasets hc vxw vxh (seq 0 n) g) as [[e|ds] g']; simpl in *; subst g';
    reflexivity.
Qed.

Lemma true_div_ok a b : b ≠ 0 → true_div a b = inr (ofnat a / ofnat b)%Qc.
Proof. intros Hb. unfold true_div. rewrite decide_False by exact Hb. reflexivity. Qed.

Lemma dataset_entry_ok j chunk comp vxw vxh n g :
  g_arrays g !! "0"%string = Some (level_array j chunk comp 0) →
  g_arrays g !! Py.str n = Some (level_array j chunk comp n) →
  fst (jp_level_hw j n) ≠ 0 → snd (jp_level_hw j n) ≠ 0 →
  dataset_entry (has_channel j) vxw vxh n g = (inr (dataset_of j vxw vxh n), g).
Proof.
  intros H0 Hn Hh Hw. unfold dataset_entry.
  erewrite bind_inr; cycle 1. { unfold getarr. rewrite H0. reflexivity. }
  erewrite bind_inr; cycle 1. { unfold getarr. rewrite Hn. reflexivity. }
  unfold level_array. cbn [za_shape]. rewrite !wj_shape_eq, !last2_app2.
  cbn [lookup list_lookup lift_opt].
  unfold bind at 1. unfold ret at 1. unfold bind at 1. unfold ret at 1.
  rewrite (true_div_ok _ _ Hh). cbn [lift].
  unfold bind at 1. unfold ret at 1. unfold bind at 1. unfold ret at 1.
  unfold bind at 1. unfold ret at 1.
  rewrite (true_div_ok _ _ Hw). cbn [lift].
  unfold bind at 1. unfold ret at 1.
  reflexivity.
Qed.

Lemma datasets_ok j chunk comp vxw vxh ls g :
  (ls ≠ [] → g_arrays g !! "0"%string = Some (level_array j chunk comp 0)) →
  (∀ n, n ∈ ls →
     g_arrays g !! Py.str n = Some (level_array j chunk comp n)
     ∧ fst (jp_level_hw j n) ≠ 0 ∧ snd (jp_level_hw j n) ≠ 0) →
  datasets (has_channel j) vxw vxh ls g = (inr (dataset_of j vxw vxh <$> ls), g).
Proof.
  intros H0 Hls. induction ls as [|n ls IH]; [reflexivity|].
  simpl datasets.
  destruct (Hls n) as (Hn & Hh & Hw); [left|].
  erewrite bind_inr; cycle 1.
  { apply (dataset_entry_ok j chunk comp); try assumption. apply H0. discriminate. }
  erewrite bind_inr; cycle 1.
  { apply IH.
    - intros _. apply H0. discriminate.
    - intros n' Hn'. apply Hls. right. exact Hn'. }
  reflexivity.
Qed.

Lemma after_levels_lookup j chunk comp l :
  l < jp_num_res j →
  g_arrays (after_levels j chunk comp) !! Py.str l
  = Some (level_array (E:=E) j chunk comp l).
Proof.
  intros Hl. unfold after_levels. apply with_levels_lookup.
  - apply NoDup_seq.
  - apply elem_of_seq. lia.
Qed.

Lemma write_metadata_ok j chunk comp vxw vxh :
  levels_nonempty j →
  write_metadata (has_channel j) vxw vxh (jp_num_res j) (after_levels j chunk comp)
  = (inr (),
     {| g_arrays := g_arrays (after_levels (E:=E) j chunk comp);
        g_multiscales := Some [multiscale_of j vxw vxh] |}).
Proof.
  intros Hne. unfold write_metadata.
  erewrite bind_inr; cycle 1.
  { apply (datasets_ok j chunk comp).
    - intros Hnil. rewrite <- str_0. apply after_levels_lookup.
      destruct (jp_num_res j); [exfalso; apply Hnil; reflexivity | lia].
    - intros n Hn. apply elem_of_seq in Hn.
      split; [apply after_levels_lookup; lia | apply Hne; lia]. }
  reflexivity.
Qed.

End Metadata.

(** * The header and the whole of [convert] *)

Section Whole.
Context {E : Env}.
Implicit Types (a : Args) (j : Jp2k) (g : Group E) (comp : codec E).

Lemma write_header_ok a j chunk comp vxw vxh aff g :
  g_arrays g !! "0"%string = Some (level_array j chunk comp 0) →
  g_arrays g !! "nifti"%string = None →
  Orientation.orientation_to_affine (orientation a) vxw vxh
    (thickness_or_1 (thickness a)) = Some aff →
  write_header a (has_channel j) vxw vxh g
  = (inr (),
     {| g_arrays := <["nifti"%string := header_array (header_of a j aff)]> (g_arrays g);
        g_multiscales := g_multiscales g |}).
Proof.
  intros H0 Hfresh Haff. unfold write_header.
  erewrite bind_inr; cycle 1. { unfold getarr. rewrite H0. reflexivity. }
  rewrite Haff. cbn [lift_opt]. unfold bind at 1. unfold ret at 1.
  erewrite bind_inr; cycle 1. { unfold getarr. rewrite H0. reflexivity. }
  unfold create_dataset. rewrite Hfresh. cbn [co_chunks length].
  rewrite decide_False by lia. reflexivity.
Qed.

Lemma write_header_bad_orientation a j chunk comp vxw vxh g :
  g_arrays g !! "0"%string = Some (level_array j chunk comp 0) →
  Orientation.orientation_to_affine (orientation a) vxw vxh
    (thickness_or_1 (thickness a)) = None →
  write_header a (has_channel j) vxw vxh g = (inl OrientationError, g).
Proof.
  intros H0 Haff. unfold write_header.
  erewrite bind_inr; cycle 1. { unfold getarr. rewrite H0. reflexivity. }
  rewrite Haff. reflexivity.
Qed.

(** Whatever it returns, the header step touches no key but ["nifti"]
    and leaves the descriptor alone. *)
Lemma write_header_frame a hc vxw vxh g :
  (∀ key, key ≠ "nifti"%string →
     g_arrays (snd (write_header a hc vxw vxh g)) !! key = g_arrays g !! key)
  ∧ g_multiscales (snd (write_header a hc vxw vxh g)) = g_multiscales g.
Proof.
  unfold write_header.
  destruct (g_arrays g !! "0"%string) as [a0|] eqn:H0.
  - erewrite bind_inr by (unfold getarr; rewrite H0; reflexivity).
    destruct (Orientation.orientation_to_affine _ _ _ _) as [aff|].
    + erewrite bind_inr by reflexivity.
      erewrite bind_inr by (unfold getarr; rewrite H0; reflexivity).
      unfold create_dataset.
      destruct (g_arrays g !! "nifti"%string); [split; reflexivity|].
      cbn [co_chunks length]. rewrite decide_False by lia.
      cbn [snd g_arrays g_multiscales].
      split; [|reflexivity]. intros key Hkey. apply lookup_insert_ne. congruence.
    + split; reflexivity.
  - erewrite bind_inl by (unfold getarr; rewrite H0; reflexivity).
    split; reflexivity.
Qed.

Lemma after_levels_no_nifti j chunk comp :
  g_arrays (after_levels (E:=E) j chunk comp) !! "nifti"%string = None.
Proof.
  unfold after_levels. rewrite with_levels_lookup_other; [apply lookup_empty|].
  intros l _. apply str_ne_nifti.
Qed.

(** [convert] up to the end of the level loop. *)
Lemma convert_levels a j copt comp vxw vxh :
  literal_eval E (compressor_opt a) = Some copt →
  jp_resolution j = Some (vxw, vxh) →
  make_compressor E (compressor a) copt = Some comp →
  max_load_ok (max_load a) → decoder_ok j →
  convert a j
  = {| oc_out := fst (resolve_out (inp a) (out a) (nii a));
       oc_result :=
         fst (finish a j vxw vxh (snd (resolve_out (inp a) (out a) (nii a)))
                (after_levels j (chunk a) comp));
       oc_store :=
         Some (snd (finish a j vxw vxh (snd (resolve_out (inp a) (out a) (nii a)))
                      (after_levels j (chunk a) comp))) |}.
Proof.
  intros Hlit Hres Hcomp Hml Hdec. unfold convert.
  destruct (resolve_out (inp a) (out a) (nii a)) as [out' nii'].
  rewrite Hlit. unfold get_pixelsize. rewrite Hres, Hcomp. cbn [fst snd].
  erewrite bind_inr; cycle 1.
  { apply (write_levels_ok j (chunk a) comp (max_load a) 0 (jp_num_res j));
      [lia | intros; apply lookup_empty | exact Hml | exact Hdec]. }
  transitivity
    (let '(r, g) := finish (E:=E) a j vxw vxh nii' (after_levels j (chunk a) comp) in
     {| oc_out := out'; oc_result := r; oc_store := Some g |}); [reflexivity|].
  destruct (finish a j vxw vxh nii' (after_levels j (chunk a) comp)). reflexivity.
Qed.

(** Every level array is in the store when [convert] returns or raises
    after the level loop. *)
Lemma finish_keeps_levels a j chunk comp vxw vxh nii' l :
  l < jp_num_res j →
  g_arrays (snd (finish a j vxw vxh nii' (after_levels j chunk comp))) !! Py.str l
  = Some (level_array j chunk comp l).
Proof.
  intros Hl. unfold finish, bind.
  pose proof (write_metadata_arrays (has_channel j) vxw vxh (jp_num_res j)
                (after_levels j chunk comp)) as Harr.
  destruct (write_metadata _ _ _ _ _) as [[e|[]] g1]; simpl snd in *.
  - rewrite Harr. apply after_levels_lookup. exact Hl.
  - destruct nii'; simpl negb; cbv iota.
    + destruct (write_header_frame a (has_channel j) vxw vxh g1) as [Hframe _].
      rewrite Hframe by apply str_ne_nifti.
      rewrite Harr. apply after_levels_lookup. exact Hl.
    + simpl. rewrite Harr. apply after_levels_lookup. exact Hl.
Qed.

(** The descriptor is attached once no level is empty, whatever the
    header step does. *)
Lemma finish_multiscales a j chunk comp vxw vxh nii' :
  levels_nonempty j →
  g_multiscales (snd (finish a j vxw vxh nii' (after_levels j chunk comp)))
  = Some [multiscale_of j vxw vxh].
Proof.
  intros Hne. unfold finish.
  erewrite bind_inr by (apply write_metadata_ok; exact Hne).
  destruct nii'; simpl negb; cbv iota; [|reflexivity].
  destruct (write_header_frame a (has_channel j) vxw vxh
              {| g_arrays := g_arrays (after_levels j chunk comp);
                 g_multiscales := Some [multiscale_of j vxw vxh] |}) as [_ Hms].
  exact Hms.
Qed.

Lemma finish_plain a j chunk comp vxw vxh :
  levels_nonempty j →
  finish a j vxw vxh false (after_levels j chunk comp)
  = (inr (),
     {| g_arrays := g_arrays (after_levels j chunk comp);
        g_multiscales := Some [multiscale_of j vxw vxh] |}).
Proof.
  intros Hne. unfold finish.
  erewrite bind_inr by (apply write_metadata_ok; exact Hne). reflexivity.
Qed.

Lemma finish_header a j chunk comp vxw vxh aff :
  levels_nonempty j → 0 < jp_num_res j →
  Orientation.orientation_to_affine (orientation a) vxw vxh
    (thickness_or_1 (thickness a)) = Some aff →
  finish a j vxw vxh true (after_levels j chunk comp)
  = (inr (),
     {| g_arrays := <["nifti"%string := header_array (header_of a j aff)]>
                      (g_arrays (after_levels j chunk comp));
        g_multiscales := Some [multiscale_of j vxw vxh] |}).
Proof.
  intros Hne Hn Haff. unfold finish.
  erewrite bind_inr by (apply write_metadata_ok; exact Hne).
  set (g1 := {| g_arrays := g_arrays (after_levels j chunk comp);
                g_multiscales := Some [multiscale_of j vxw vxh] |}).
  refine (write_header_ok a j chunk comp vxw vxh aff g1 _ _ Haff).
  - subst g1. cbn [g_arrays]. rewrite <- str_0. apply after_levels_lookup. exact Hn.
  - subst g1. cbn [g_arrays]. apply after_levels_no_nifti.
Qed.

Lemma finish_bad_orientation a j chunk comp vxw vxh :
  levels_nonempty j → 0 < jp_num_res j →
  Orientation.orientation_to_affine (orientation a) vxw vxh
    (thickness_or_1 (thickness a)) = None →
  finish a j vxw vxh true (after_levels j chunk comp)
  = (inl OrientationError,
     {| g_arrays := g_arrays (after_levels j chunk comp);
        g_multiscales := Some [multiscale_of j vxw vxh] |}).
Proof.
  intros Hne Hn Haff. unfold finish.
  erewrite bind_inr by (apply write_metadata_ok; exact Hne).
  set (g1 := {| g_arrays := g_arrays (after_levels j chunk comp);
                g_multiscales := Some [multiscale_of j vxw vxh] |}).
  refine (write_header_bad_orientation a j chunk comp vxw vxh g1 _ Haff).
  subst g1. cbn [g_arrays]. rewrite <- str_0. apply after_levels_lookup. exact Hn.
Qed.

End Whole.

(** * Tiling does not change what is written *)

Section MaxLoad.
Context {E : Env}.
Implicit Types (a : Args) (j : Jp2k) (g : Group E).

Lemma write_level_max_load (opt : CreateOpt E) ml j l g :
  max_load_ok ml →
  planes_ok (product (drop 2 (jp_shape j)))
    (fst (jp_level_hw j l)) (snd (jp_level_hw j l)) (jp_level_data j l) →
  write_level opt ml j l g = write_level opt None j l g.
Proof.
  intros Hml Hdata. unfold write_level.
  set (lead := drop 2 (jp_shape j)) in *.
  set (h := fst (jp_level_hw j l)) in *. set (w := snd (jp_level_hw j l)) in *.
  assert (Hshape : wj_shape (Wrap j l) = lead ++ [h; w]) by apply wj_shape_eq.
  rewrite Hshape.
  destruct (create_dataset (Py.str l) (lead ++ [h; w]) opt None g) as [[e|[]] g1] eqn:Hc.
  { rewrite !(bind_inl _ _ _ _ _ Hc). reflexivity. }
  rewrite !(bind_inr _ _ _ _ _ Hc).
  assert (Hg1 : ∃ arr, g_arrays g1 !! Py.str l = Some arr
                       ∧ za_data arr = Pixels (replicate (product lead)
                                                 (replicate h (replicate w 0%Z)))).
  { unfold create_dataset in Hc.
    destruct (g_arrays g !! Py.str l); [discriminate|].
    destruct (decide _); [discriminate|].
    injection Hc as <-. eexists. cbn [g_arrays]. rewrite lookup_insert_eq.
    split; [reflexivity|]. cbn [za_data]. apply blank_app2. }
  destruct Hg1 as (arr & Harr & Hdat).
  assert (Hget : getarr (Py.str l) g1 = (inr arr, g1)).
  { unfold getarr. rewrite Harr. reflexivity. }
  rewrite !(bind_inr _ _ _ _ _ Hget).
  destruct (index_neg_app2 lead h w) as [H2 H1]. rewrite H2, H1.
  cbn [lift_opt]. rewrite !(bind_inr _ _ g1 h g1 eq_refl).
  rewrite !(bind_inr _ _ g1 w g1 eq_refl).
  rewrite Hdat. unfold wj_data. cbn [wj_j2k wj_level].
  destruct ml as [m|]; [|reflexivity].
  rewrite (copy_level_Some (product lead)), (copy_level_None (product lead));
    try assumption; try apply planes_ok_replicate.
  reflexivity.
Qed.

Lemma write_levels_max_load (opt : CreateOpt E) ml j ls g :
  max_load_ok ml → decoder_ok j → Forall (λ l, l < jp_num_res j) ls →
  write_levels opt ml j ls g = write_levels opt None j ls g.
Proof.
  intros Hml Hdec Hls. revert g.
  induction Hls as [|l ls Hl Hls IH]; intros g; [reflexivity|].
  cbn [write_levels].
  unfold bind at 1. rewrite (write_level_max_load opt ml) by (try assumption; apply Hdec, Hl).
  unfold bind. destruct (write_level opt None j l g) as [[e|[]] g1]; [reflexivity|].
  apply IH.
Qed.

Lemma convert_max_load a j ml :
  max_load_ok ml → decoder_ok j →
  convert (set_max_load a ml) j = convert (E:=E) (set_max_load a None) j.
Proof.
  intros Hml Hdec. unfold convert. cbn [set_max_load inp out nii compressor_opt
    compressor chunk max_load].
  destruct (resolve_out (inp a) (out a) (nii a)) as [out' nii'].
  destruct (literal_eval E (compressor_opt a)) as [copt|]; [|reflexivity].
  destruct (get_pixelsize j) as [e|[vxw vxh]]; [reflexivity|].
  destruct (make_compressor E (compressor a) copt) as [comp|]; [|reflexivity].
  unfold bind.
  rewrite (write_levels_max_load _ ml) by
    (try assumption; apply Forall_forall; intros l Hl; apply elem_of_seq in Hl; lia).
  reflexivity.
Qed.

End MaxLoad.

(** C1.  For every level of a codestream and every [max_load], positive
    or unset, the content the tiled copy loop writes is that of a single
    whole-plane copy, namely the level's own data; so the whole
    conversion gives the same store whatever [max_load] is.  The tiles
    of the loop contain each spatial index of the level exactly once. *)
Theorem tiling_equivalence (E : Env) (a : Args) (j : Jp2k) (m : Z) :
  (0 < m)%Z → decoder_ok j →
  convert (E:=E) (set_max_load a (Some m)) j = convert (set_max_load a None) j
  ∧ (∀ l array, l < jp_num_res j →
       let n := product (drop 2 (jp_shape j)) in
       let H := fst (jp_level_hw j l) in
       let W := snd (jp_level_hw j l) in
       planes_ok n H W array →
       Copy.copy_level (Some m) H W (jp_level_data j l) array
       = Copy.copy_level None H W (jp_level_data j l) array
       ∧ Copy.copy_level None H W (jp_level_data j l) array
         = inr (jp_level_data j l))
  ∧ (∀ H W ni nj r c,
       Copy.ceildiv (Z.of_nat H) m = Some ni →
       Copy.ceildiv (Z.of_nat W) m = Some nj →
       r < H → c < W →
       cover_count (Copy.tiles m H W ni nj) r c = 1).
Proof.
  intros Hm Hdec. split; [|split].
  - apply (convert_max_load a j (Some m)); assumption.
  - intros l array Hl n H W Harr.
    rewrite (copy_level_Some n), (copy_level_None n);
      try assumption; try (apply Hdec; exact Hl). split; reflexivity.
  - intros H W ni nj r c Hni Hnj Hr Hc. apply cover_count_tiles; assumption.
Qed.

(** * Rational arithmetic *)

Lemma ofnat_ne0 n : n ≠ 0 → ofnat n ≠ 0%Qc.
Proof.
  intros Hn Heq. apply (f_equal this) in Heq. unfold ofnat in Heq. simpl in Heq.
  apply Qred_eq_iff in Heq. unfold Qeq in Heq. simpl in Heq. lia.
Qed.

Lemma half_div2 x : (x * half = x / 2)%Qc.
Proof.
  assert (Hh : half = (1 / 2)%Qc) by (apply Qc_is_canon; reflexivity).
  rewrite Hh. field. intros H. apply (f_equal this) in H. discriminate H.
Qed.

Lemma ofnat_div_self n : n ≠ 0 → (ofnat n / ofnat n = 1)%Qc.
Proof. intros Hn. field. apply ofnat_ne0. exact Hn. Qed.

(** * What [convert] leaves in the store *)

Section Stored.
Context {E : Env}.
Implicit Types (a : Args) (j : Jp2k) (g : Group E) (comp : codec E).

(** After a level loop that ran, every level array is in the store,
    also when a later step raises. *)
Lemma convert_level_arrays a j copt comp vxw vxh :
  literal_eval E (compressor_opt a) = Some copt →
  jp_resolution j = Some (vxw, vxh) →
  make_compressor E (compressor a) copt = Some comp →
  max_load_ok (max_load a) → decoder_ok j →
  ∃ g, oc_store (convert a j) = Some g
       ∧ ∀ l, l < jp_num_res j →
           g_arrays g !! Py.str l = Some (level_array j (chunk a) comp l).
Proof.
  intros Hlit Hres Hcomp Hml Hdec.
  rewrite (convert_levels a j copt comp vxw vxh) by assumption.
  eexists. split; [reflexivity|]. intros l Hl.
  apply finish_keeps_levels. exact Hl.
Qed.

(** When moreover no level is empty, the descriptor is attached. *)
Lemma convert_descriptor a j copt comp vxw vxh :
  literal_eval E (compressor_opt a) = Some copt →
  jp_resolution j = Some (vxw, vxh) →
  make_compressor E (compressor a) copt = Some comp →
  max_load_ok (max_load a) → decoder_ok j → levels_nonempty j →
  ∃ g, oc_store (convert a j) = Some g
       ∧ g_multiscales g = Some [multiscale_of j vxw vxh]
       ∧ ∀ l, l < jp_num_res j →
           g_arrays g !! Py.str l = Some (level_array j (chunk a) comp l).
Proof.
  intros Hlit Hres Hcomp Hml Hdec Hne.
  rewrite (convert_levels a j copt comp vxw vxh) by assumption.
  eexists. split; [reflexivity|]. split.
  - apply finish_multiscales. exact Hne.
  - intros l Hl. apply finish_keeps_levels. exact Hl.
Qed.

Lemma multiscale_dataset j vxw vxh n :
  n < jp_num_res j →
  ms_datasets (multiscale_of j vxw vxh) !! n = Some (dataset_of j vxw vxh n).
Proof.
  intros Hn. unfold multiscale_of. cbn [ms_datasets].
  rewrite list_lookup_fmap, lookup_seq_lt by exact Hn. reflexivity.
Qed.

End Stored.

(** C2.  For every level [n] the recorded transformations are, on the
    spatial components, the scale [(H0/Hn * vxh, W0/Wn * vxw)] and the
    translation [((H0/Hn - 1) * vxh / 2, (W0/Wn - 1) * vxw / 2)], where
    [(H0, W0)] and [(Hn, Wn)] are the spatial shapes of level 0 and of
    level [n]; at level 0 the scale is the voxel size and the
    translation is zero. *)
Theorem scale_translation_formula (E : Env) (a : Args) (j : Jp2k)
    (copt : opts E) (comp : codec E) (vxw vxh : Qc) (n : nat) :
  literal_eval E (compressor_opt a) = Some copt →
  jp_resolution j = Some (vxw, vxh) →
  make_compressor E (compressor a) copt = Some comp →
  max_load_ok (max_load a) → decoder_ok j → levels_nonempty j →
  n < jp_num_res j →
  let H0 := ofnat (fst (jp_level_hw j 0)) in
  let W0 := ofnat (snd (jp_level_hw j 0)) in
  let Hn := ofnat (fst (jp_level_hw j n)) in
  let Wn := ofnat (snd (jp_level_hw j n)) in
  ∃ (g : Group E) ms d,
    oc_store (convert a j) = Some g
    ∧ g_multiscales g = Some [ms]
    ∧ ms_datasets ms !! n = Some d
    ∧ ds_transforms d =
        [ Scale (Py.list_mul 1%Qc (has_channel j)
                   ++ [ (H0 / Hn * vxh)%Qc; (W0 / Wn * vxw)%Qc ]);
          Translation (Py.list_mul 0%Qc (has_channel j)
                   ++ [ ((H0 / Hn - 1) * vxh / 2)%Qc;
                        ((W0 / Wn - 1) * vxw / 2)%Qc ]) ]
    ∧ (n = 0 →
       ds_transforms d =
         [ Scale (Py.list_mul 1%Qc (has_channel j) ++ [ vxh; vxw ]);
           Translation (Py.list_mul 0%Qc (has_channel j) ++ [ 0%Qc; 0%Qc ]) ]).
Proof.
  intros Hlit Hres Hcomp Hml Hdec Hne Hn H0 W0 Hn' Wn'.
  destruct (convert_descriptor a j copt comp vxw vxh) as (g & Hg & Hms & _);
    try assumption.
  exists g, (multiscale_of j vxw vxh), (dataset_of j vxw vxh n).
  split; [exact Hg|]. split; [exact Hms|].
  split; [apply multiscale_dataset; exact Hn|].
  unfold dataset_of, level_ratio. cbn [ds_transforms].
  fold H0 W0 Hn' Wn'. rewrite !half_div2. split; [reflexivity|].
  intros ->. subst Hn' Wn' H0 W0.
  destruct (Hne 0 Hn) as [Hh Hw].
  rewrite !ofnat_div_self by assumption.
  repeat f_equal; field; intros H; apply (f_equal this) in H; discriminate H.
Qed.

(** C10.  For a codestream with leading channel dimensions, at every
    level each channel component of the scale vector is 1 and each
    channel component of the translation vector is 0: the channel axis
    is neither rescaled nor shifted. *)
Theorem channel_components_fixed (E : Env) (a : Args) (j : Jp2k)
    (copt : opts E) (comp : codec E) (vxw vxh : Qc) (n i : nat) :
  literal_eval E (compressor_opt a) = Some copt →
  jp_resolution j = Some (vxw, vxh) →
  make_compressor E (compressor a) copt = Some comp →
  max_load_ok (max_load a) → decoder_ok j → levels_nonempty j →
  n < jp_num_res j →
  (Z.of_nat i < has_channel j)%Z →
  ∃ (g : Group E) ms d s t,
    oc_store (convert a j) = Some g
    ∧ g_multiscales g = Some [ms]
    ∧ ms_datasets ms !! n = Some d
    ∧ ds_transforms d = [Scale s; Translation t]
    ∧ s !! i = Some 1%Qc
    ∧ t !! i = Some 0%Qc
    ∧ Z.of_nat (length s) = (has_channel j + 2)%Z
    ∧ Z.of_nat (length t) = (has_channel j + 2)%Z.
Proof.
  intros Hlit Hres Hcomp Hml Hdec Hne Hn Hi.
  destruct (convert_descriptor a j copt comp vxw vxh) as (g & Hg & Hms & _);
    try assumption.
  exists g, (multiscale_of j vxw vxh), (dataset_of j vxw vxh n).
  unfold dataset_of, level_ratio. cbn [ds_transforms]. do 2 eexists.
  split; [exact Hg|]. split; [exact Hms|].
  split; [apply multiscale_dataset; exact Hn|].
  split; [reflexivity|]. unfold Py.list_mul.
  split; [|split; [|split]].
  - rewrite lookup_app_l by (rewrite length_replicate; lia).
    apply lookup_replicate_2. lia.
  - rewrite lookup_app_l by (rewrite length_replicate; lia).
    apply lookup_replicate_2. lia.
  - rewrite length_app, length_replicate. simpl. lia.
  - rewrite length_app, length_replicate. simpl. lia.
Qed.

(** C9.  The datasets list of the descriptor has one entry per level,
    in the order of the levels [0 .. numLevels-1]; the path of entry [n]
    is the decimal numeral of [n], which is the key under which the
    array of level [n] was created; distinct levels have distinct
    keys. *)
Theorem datasets_follow_levels (E : Env) (a : Args) (j : Jp2k)
    (copt : opts E) (comp : codec E) (vxw vxh : Qc) :
  literal_eval E (compressor_opt a) = Some copt →
  jp_resolution j = Some (vxw, vxh) →
  make_compressor E (compressor a) copt = Some comp →
  max_load_ok (max_load a) → decoder_ok j → levels_nonempty j →
  ∃ (g : Group E) ms,
    oc_store (convert a j) = Some g
    ∧ g_multiscales g = Some [ms]
    ∧ length (ms_datasets ms) = jp_num_res j
    ∧ ds_path <$> ms_datasets ms = Py.str <$> seq 0 (jp_num_res j)
    ∧ (∀ n, n < jp_num_res j →
         ∃ d arr, ms_datasets ms !! n = Some d
                  ∧ g_arrays g !! ds_path d = Some arr
                  ∧ ds_path d = Py.str n
                  ∧ za_shape arr = wj_shape (Wrap j n)
                  ∧ za_data arr = Pixels (jp_level_data j n))
    ∧ (∀ n n', Py.str n = Py.str n' → n = n').
Proof.
  intros Hlit Hres Hcomp Hml Hdec Hne.
  destruct (convert_descriptor a j copt comp vxw vxh) as (g & Hg & Hms & Harr);
    try assumption.
  exists g, (multiscale_of j vxw vxh).
  split; [exact Hg|]. split; [exact Hms|].
  unfold multiscale_of at 1 2. cbn [ms_datasets].
  split; [rewrite length_fmap; apply length_seq|].
  split.
  - rewrite <- list_fmap_compose. apply list_fmap_ext. intros _ n _.
    unfold dataset_of, level_ratio. reflexivity.
  - split; [|intros n n'; apply str_inj].
    intros n Hn. exists (dataset_of j vxw vxh n), (level_array j (chunk a) comp n).
    split; [apply multiscale_dataset; exact Hn|].
    unfold dataset_of, level_ratio. cbn [ds_path].
    split; [apply Harr; exact Hn|]. repeat split.
Qed.

(** C4.  The array of every level is created with the exact shape of
    the level view; its chunk shape has the configured chunk size on the
    last two (spatial) components and the full extent of the array on
    every leading component. *)
Theorem level_array_shape_and_chunks (E : Env) (a : Args) (j : Jp2k)
    (copt : opts E) (comp : codec E) (vxw vxh : Qc) (l : nat) :
  literal_eval E (compressor_opt a) = Some copt →
  jp_resolution j = Some (vxw, vxh) →
  make_compressor E (compressor a) copt = Some comp →
  max_load_ok (max_load a) → decoder_ok j →
  l < jp_num_res j →
  ∃ (g : Group E) arr,
    oc_store (convert a j) = Some g
    ∧ g_arrays g !! Py.str l = Some arr
    ∧ za_shape arr = wj_shape (Wrap j l)
    ∧ length (za_chunks arr) = length (za_shape arr)
    ∧ Py.last2 (za_chunks arr) = [chunk a; chunk a]
    ∧ take (length (za_shape arr) - 2) (za_chunks arr)
      = take (length (za_shape arr) - 2) (za_shape arr).
Proof.
  intros Hlit Hres Hcomp Hml Hdec Hl.
  destruct (convert_level_arrays a j copt comp vxw vxh) as (g & Hg & Harr);
    try assumption.
  exists g, (level_array j (chunk a) comp l).
  split; [exact Hg|]. split; [apply Harr; exact Hl|].
  unfold level_array. cbn [za_shape za_chunks]. rewrite wj_shape_eq.
  split; [reflexivity|]. split; [rewrite !length_app; reflexivity|].
  split; [apply last2_app2|].
  rewrite length_app. simpl length.
  replace (length (drop 2 (jp_shape j)) + 2 - 2) with (length (drop 2 (jp_shape j)))
    by lia.
  rewrite !take_app_length. reflexivity.
Qed.

(** C3.  When the header variant is requested, the serialised header is
    stored under the key ["nifti"] as a one-dimensional byte array: its
    shape and its chunk shape are the number of bytes of the header, and
    it has no compressor. *)
Theorem header_array_stored (E : Env) (a : Args) (j : Jp2k)
    (copt : opts E) (comp : codec E) (vxw vxh : Qc) (aff : Orientation.Affine) :
  literal_eval E (compressor_opt a) = Some copt →
  jp_resolution j = Some (vxw, vxh) →
  make_compressor E (compressor a) copt = Some comp →
  max_load_ok (max_load a) → decoder_ok j → levels_nonempty j →
  0 < jp_num_res j →
  snd (resolve_out (inp a) (out a) (nii a)) = true →
  Orientation.orientation_to_affine (orientation a) vxw vxh
    (thickness_or_1 (thickness a)) = Some aff →
  ∃ (g : Group E) arr header,
    oc_result (convert (E:=E) a j) = inr ()
    ∧ oc_store (convert a j) = Some g
    ∧ g_arrays g !! "nifti"%string = Some arr
    ∧ header = tobytes E (header_of a j aff)
    ∧ za_data arr = Bytes header
    ∧ za_shape arr = [length header]
    ∧ za_chunks arr = [length header]
    ∧ za_compressor arr = None.
Proof.
  intros Hlit Hres Hcomp Hml Hdec Hne Hn Hnii Haff.
  rewrite (convert_levels a j copt comp vxw vxh) by assumption.
  rewrite Hnii. cbn [oc_result oc_store].
  rewrite (finish_header a j (chunk a) comp vxw vxh aff) by assumption.
  cbn [fst snd].
  eexists. exists (header_array (header_of a j aff)). eexists.
  split; [reflexivity|]. split; [reflexivity|]. cbn [g_arrays].
  split; [apply lookup_insert_eq|].
  split; [reflexivity|]. repeat split.
Qed.

(** * The demonstration codestream *)

Lemma demo_decoder_ok : decoder_ok Demo.j2k.
Proof.
  intros l Hl. destruct l as [|[|l]]; [| |simpl in Hl; lia];
    apply (bool_decide_unpack _); vm_compute; exact I.
Defined.

Lemma demo_levels_nonempty : levels_nonempty Demo.j2k.
Proof.
  intros l Hl. destruct l as [|[|l]]; [| |simpl in Hl; lia]; simpl; split; lia.
Defined.

(** * Channel axis and header shape *)

Lemma header_shape_channels (hc : Z) (lead : list nat) (h w : nat) :
  hc ≠ 0%Z →
  header_shape hc (lead ++ [h; w])
  = rev (insert_singletons (length lead) (lead ++ [h; w])).
Proof.
  intros Hhc. unfold header_shape, insert_singletons.
  rewrite decide_True by exact Hhc.
  rewrite take_app_length, drop_app_length.
  rewrite !rev_app_distr. simpl. reflexivity.
Qed.

(** C6, as the code has it.  For a codestream with a leading channel
    dimension the axis list is a channel axis followed by [y] then [x];
    and when the header variant is requested, the data shape of the
    header is the REVERSE of the level-0 shape with two singleton
    dimensions inserted after the channel dimension, that is
    [(W, H, 1, 1, C)] for a level-0 shape [(C, H, W)]. *)
Theorem channel_axis_and_header_shape (E : Env) (a : Args) (j : Jp2k)
    (copt : opts E) (comp : codec E) (vxw vxh : Qc) :
  literal_eval E (compressor_opt a) = Some copt →
  jp_resolution j = Some (vxw, vxh) →
  make_compressor E (compressor a) copt = Some comp →
  max_load_ok (max_load a) → decoder_ok j → levels_nonempty j →
  (0 < has_channel j)%Z →
  ∃ (g : Group E) ms,
    oc_store (convert a j) = Some g
    ∧ g_multiscales g = Some [ms]
    ∧ ms_axes ms =
        [ {| ax_name := "c"; ax_type := "channel"; ax_unit := None |};
          {| ax_name := "y"; ax_type := "space"; ax_unit := Some "micrometer"%string |};
          {| ax_name := "x"; ax_type := "space"; ax_unit := Some "micrometer"%string |} ]
    ∧ (∀ aff,
         snd (resolve_out (inp a) (out a) (nii a)) = true →
         0 < jp_num_res j →
         Orientation.orientation_to_affine (orientation a) vxw vxh
           (thickness_or_1 (thickness a)) = Some aff →
         ∃ a0 arr h,
           g_arrays g !! "0"%string = Some a0
           ∧ g_arrays g !! "nifti"%string = Some arr
           ∧ za_data arr = Bytes (tobytes E h)
           ∧ nh_data_shape h
             = rev (insert_singletons (Z.to_nat (has_channel j)) (za_shape a0))).
Proof.
  intros Hlit Hres Hcomp Hml Hdec Hne Hhc.
  destruct (convert_descriptor a j copt comp vxw vxh) as (g & Hg & Hms & Harr);
    try assumption.
  exists g, (multiscale_of j vxw vxh).
  split; [exact Hg|]. split; [exact Hms|]. split.
  { unfold multiscale_of, axes. cbn [ms_axes].
    rewrite decide_True by lia. reflexivity. }
  intros aff Hnii Hn Haff.
  rewrite (convert_levels a j copt comp vxw vxh) in Hg by assumption.
  rewrite Hnii in Hg. cbn [oc_store] in Hg.
  rewrite (finish_header a j (chunk a) comp vxw vxh aff) in Hg by assumption.
  cbn [snd] in Hg. injection Hg as <-. cbn [g_arrays].
  exists (level_array j (chunk a) comp 0), (header_array (header_of a j aff)),
    (header_of a j aff).
  split.
  { rewrite lookup_insert_ne by discriminate.
    rewrite <- str_0. apply after_levels_lookup. exact Hn. }
  split; [apply lookup_insert_eq|]. split; [reflexivity|].
  unfold header_of, level_array. cbn [nh_data_shape za_shape].
  rewrite wj_shape_eq.
  replace (Z.to_nat (has_channel j)) with (length (drop 2 (jp_shape j))).
  - apply header_shape_channels. lia.
  - rewrite length_drop. unfold has_channel, ndim in *. lia.
Qed.

(** C6 as stated fails: for the three-band demonstration codestream the
    level-0 shape is [(3, 5, 7)] and the header is given the data shape
    [(7, 5, 1, 1, 3)], not [(3, 1, 1, 5, 7)]. *)
Lemma header_shape_is_reversed :
  ∃ (g : Group Demo.env) a0,
    oc_store (convert Demo.args Demo.j2k) = Some g
    ∧ g_arrays g !! "0"%string = Some a0
    ∧ za_shape a0 = [3; 5; 7]
    ∧ header_shape (has_channel Demo.j2k) (za_shape a0) = [7; 5; 1; 1; 3]
    ∧ insert_singletons 1 (za_shape a0) = [3; 1; 1; 5; 7]
    ∧ header_shape (has_channel Demo.j2k) (za_shape a0)
      ≠ insert_singletons 1 (za_shape a0).
Proof.
  destruct (convert_level_arrays (E:=Demo.env) Demo.args Demo.j2k () "blosc"%string
              half half) as (g & Hg & Harr);
    [reflexivity | reflexivity | reflexivity | simpl; lia | exact demo_decoder_ok |].
  exists g, (level_array (E:=Demo.env) Demo.j2k 1024 "blosc"%string 0).
  split; [exact Hg|]. split; [rewrite <- str_0; apply Harr; simpl; lia|].
  repeat split. discriminate.
Qed.

(** * Configuration errors *)

Section ConfigErrors.
Context {E : Env}.

Lemma convert_bad_options (a : Args) (j : Jp2k) :
  literal_eval E (compressor_opt a) = None →
  oc_result (convert (E:=E) a j) = inl SyntaxError
  ∧ oc_store (convert (E:=E) a j) = None.
Proof.
  intros Hlit. unfold convert.
  destruct (resolve_out (inp a) (out a) (nii a)) as [out' nii'].
  rewrite Hlit. split; reflexivity.
Qed.

Lemma convert_bad_orientation (a : Args) (j : Jp2k)
    (copt : opts E) (comp : codec E) (vxw vxh : Qc) :
  literal_eval E (compressor_opt a) = Some copt →
  jp_resolution j = Some (vxw, vxh) →
  make_compressor E (compressor a) copt = Some comp →
  max_load_ok (max_load a) → decoder_ok j → levels_nonempty j →
  0 < jp_num_res j →
  Orientation.orientation_to_affine (orientation a) vxw vxh
    (thickness_or_1 (thickness a)) = None →
  ∃ g : Group E,
    oc_store (convert a j) = Some g
    ∧ (∀ l, l < jp_num_res j →
         g_arrays g !! Py.str l = Some (level_array j (chunk a) comp l))
    ∧ g_multiscales g = Some [multiscale_of j vxw vxh]
    ∧ g_arrays g !! "nifti"%string = None
    ∧ oc_result (convert (E:=E) a j)
      = if snd (resolve_out (inp a) (out a) (nii a))
        then inl OrientationError else inr ().
Proof.
  intros Hlit Hres Hcomp Hml Hdec Hne Hn Haff.
  rewrite (convert_levels a j copt comp vxw vxh) by assumption.
  cbn [oc_result oc_store].
  destruct (snd (resolve_out (inp a) (out a) (nii a))).
  - rewrite (finish_bad_orientation a j (chunk a) comp vxw vxh) by assumption.
    cbn [fst snd]. eexists. split; [reflexivity|]. cbn [g_arrays g_multiscales].
    split; [intros l Hl; apply after_levels_lookup; exact Hl|].
    split; [reflexivity|]. split; [apply after_levels_no_nifti | reflexivity].
  - rewrite (finish_plain a j (chunk a) comp vxw vxh) by assumption.
    cbn [fst snd]. eexists. split; [reflexivity|]. cbn [g_arrays g_multiscales].
    split; [intros l Hl; apply after_levels_lookup; exact Hl|].
    split; [reflexivity|]. split; [apply after_levels_no_nifti | reflexivity].
Qed.

End ConfigErrors.

(** C5, as the code has it.  Compressor options that do not parse make
    [convert] raise before the store is opened: no array is created.
    An orientation code that is not recognised is looked at only when
    the header variant is requested, and then after the level loop and
    the descriptor: [convert] raises with every level array written and
    the descriptor attached, only the header array missing; without the
    header variant the code is never looked at and the run succeeds. *)
Theorem config_errors (E : Env) (a : Args) (j : Jp2k) :
  (literal_eval E (compressor_opt a) = None →
     oc_result (convert (E:=E) a j) = inl SyntaxError
     ∧ oc_store (convert (E:=E) a j) = None
     ∧ aborts_before_any_write (convert (E:=E) a j))
  ∧ (∀ (copt : opts E) (comp : codec E) vxw vxh,
       literal_eval E (compressor_opt a) = Some copt →
       jp_resolution j = Some (vxw, vxh) →
       make_compressor E (compressor a) copt = Some comp →
       max_load_ok (max_load a) → decoder_ok j → levels_nonempty j →
       0 < jp_num_res j →
       Orientation.orientation_to_affine (orientation a) vxw vxh
         (thickness_or_1 (thickness a)) = None →
       ∃ g : Group E,
         oc_store (convert a j) = Some g
         ∧ (∀ l, l < jp_num_res j →
              g_arrays g !! Py.str l = Some (level_array j (chunk a) comp l))
         ∧ g_multiscales g = Some [multiscale_of j vxw vxh]
         ∧ g_arrays g !! "nifti"%string = None
         ∧ oc_result (convert (E:=E) a j)
           = if snd (resolve_out (inp a) (out a) (nii a))
             then inl OrientationError else inr ()).
Proof.
  split.
  - intros Hlit. destruct (convert_bad_options a j Hlit) as [Hr Hs].
    split; [exact Hr|]. split; [exact Hs|].
    split; [eexists; exact Hr | intros g Hg; rewrite Hs in Hg; discriminate Hg].
  - intros copt comp vxw vxh. apply convert_bad_orientation.
Qed.

(** C5 as stated fails: with the orientation code ["XX"] and the header
    variant requested, [convert] raises only after both level arrays
    were created, so it does not abort before any write; without the
    header variant it does not raise at all. *)
Lemma bad_orientation_fails_late :
  Orientation.orientation_to_affine "XX" half half 1%Qc = None
  ∧ oc_result (convert (E:=Demo.env) Demo.args_xx Demo.j2k) = inl OrientationError
  ∧ (∃ g a0 a1, oc_store (convert (E:=Demo.env) Demo.args_xx Demo.j2k) = Some g
                ∧ g_arrays g !! "0"%string = Some a0
                ∧ g_arrays g !! "1"%string = Some a1)
  ∧ ¬ aborts_before_any_write (convert (E:=Demo.env) Demo.args_xx Demo.j2k)
  ∧ oc_result (convert (E:=Demo.env) Demo.args_xx_plain Demo.j2k) = inr ()
  ∧ ¬ aborts_before_any_write (convert (E:=Demo.env) Demo.args_xx_plain Demo.j2k).
Proof.
  destruct (convert_bad_orientation (E:=Demo.env) Demo.args_xx Demo.j2k
              () "blosc"%string half half) as (g & Hg & Harr & _ & _ & Hres);
    [reflexivity | reflexivity | reflexivity | simpl; lia | exact demo_decoder_ok
    | exact demo_levels_nonempty | simpl; lia | reflexivity |].
  destruct (convert_bad_orientation (E:=Demo.env) Demo.args_xx_plain Demo.j2k
              () "blosc"%string half half) as (g' & Hg' & _ & _ & _ & Hres');
    [reflexivity | reflexivity | reflexivity | simpl; lia | exact demo_decoder_ok
    | exact demo_levels_nonempty | simpl; lia | reflexivity |].
  split; [reflexivity|]. split; [exact Hres|].
  split.
  { exists g. do 2 eexists. split; [exact Hg|].
    split; [rewrite <- str_0; apply Harr; simpl; lia|].
    change "1"%string with (Py.str 1). apply Harr. simpl. lia. }
  split.
  { intros [_ Hempty]. specialize (Hempty g Hg).
    pose proof (Harr 0 ltac:(simpl; lia)) as H0. rewrite Hempty in H0.
    rewrite lookup_empty in H0. discriminate H0. }
  split; [exact Hres'|].
  intros [[e He] _]. rewrite Hres' in He. discriminate He.
Qed.

(** * Paths *)

Lemma rfind_None c p : Py.rfind c p = None → ∀ k, p !! k ≠ Some c.
Proof.
  induction p as [|x p IH]; intros Hr k; [rewrite lookup_nil; discriminate|].
  simpl in Hr. destruct (Py.rfind c p) as [i|]; [discriminate|].
  destruct (decide (x = c)) as [|Hxc]; [discriminate|].
  destruct k as [|k]; simpl; [congruence | apply IH; reflexivity].
Qed.

Lemma rfind_Some c p i :
  Py.rfind c p = Some i → p !! i = Some c ∧ ∀ k, i < k → p !! k ≠ Some c.
Proof.
  revert i. induction p as [|x p IH]; intros i Hr; [discriminate|].
  simpl in Hr. destruct (Py.rfind c p) as [i'|] eqn:Hp.
  - injection Hr as <-. destruct (IH i' eq_refl) as [Hi Hafter].
    split; [exact Hi|]. intros [|k] Hk; [lia|]. simpl. apply Hafter. lia.
  - destruct (decide (x = c)) as [->|]; [|discriminate].
    injection Hr as <-. split; [reflexivity|].
    intros [|k] Hk; [lia|]. simpl. apply (rfind_None c p Hp).
Qed.

(** The two halves of [splitext] make up the path, and the second half
    is an extension: empty, or a dot followed by characters that are
    neither dots nor slashes. *)
Lemma splitext_chars_spec p :
  fst (Py.splitext_chars p) ++ snd (Py.splitext_chars p) = p
  ∧ (snd (Py.splitext_chars p) = []
     ∨ ∃ e, snd (Py.splitext_chars p) = "."%char :: e
            ∧ (∀ k, e !! k ≠ Some "."%char) ∧ (∀ k, e !! k ≠ Some "/"%char)).
Proof.
  unfold Py.splitext_chars.
  destruct (Py.rfind "." p) as [dot|] eqn:Hdot;
    [|simpl; split; [apply app_nil_r | left; reflexivity]].
  destruct (decide _) as [Hle|];
    [|simpl; split; [apply app_nil_r | left; reflexivity]].
  destruct (existsb _ _);
    [|simpl; split; [apply app_nil_r | left; reflexivity]].
  simpl. split; [apply take_drop|]. right.
  apply rfind_Some in Hdot as [Hat Hafter].
  exists (drop (S dot) p). split; [apply drop_S; exact Hat|]. split.
  - intros k. rewrite lookup_drop. apply Hafter. lia.
  - intros k. rewrite lookup_drop.
    destruct (Py.rfind "/" p) as [i|] eqn:Hsl.
    + apply rfind_Some in Hsl as [_ Hafter']. apply Hafter'. lia.
    + apply (rfind_None _ _ Hsl).
Qed.

Lemma string_of_list_ascii_app l1 l2 :
  string_of_list_ascii (l1 ++ l2)
  = (string_of_list_ascii l1 +:+ string_of_list_ascii l2)%string.
Proof. induction l1 as [|c l1 IH]; simpl; [reflexivity | rewrite IH; reflexivity]. Qed.

Lemma list_ascii_of_string_app s1 s2 :
  list_ascii_of_string (s1 +:+ s2)
  = list_ascii_of_string s1 ++ list_ascii_of_string s2.
Proof. induction s1 as [|c s1 IH]; simpl; [reflexivity | rewrite IH; reflexivity]. Qed.

Lemma splitext_app p : (fst (Py.splitext p) +:+ snd (Py.splitext p))%string = p.
Proof.
  unfold Py.splitext.
  destruct (splitext_chars_spec (list_ascii_of_string p)) as [Happ _].
  destruct (Py.splitext_chars (list_ascii_of_string p)) as [root ext].
  simpl in *. rewrite <- string_of_list_ascii_app, Happ.
  apply string_of_list_ascii_of_string.
Qed.

Lemma splitext_ext p :
  snd (Py.splitext p) = ""%string
  ∨ ∃ e, snd (Py.splitext p) = String "." e
         ∧ (∀ k, list_ascii_of_string e !! k ≠ Some "."%char)
         ∧ (∀ k, list_ascii_of_string e !! k ≠ Some "/"%char).
Proof.
  unfold Py.splitext.
  destruct (splitext_chars_spec (list_ascii_of_string p)) as [_ Hext].
  destruct (Py.splitext_chars (list_ascii_of_string p)) as [root ext].
  simpl in *. destruct Hext as [-> | (e & -> & Hd & Hs)]; [left; reflexivity|].
  right. exists (string_of_list_ascii e). simpl.
  rewrite list_ascii_of_string_of_list_ascii. repeat split; assumption.
Qed.

Lemma endswith_app_other root (suffix other : string) :
  String.length suffix = String.length other → suffix ≠ other →
  Py.endswith (root +:+ suffix) other = false.
Proof.
  intros Hlen Hne. unfold Py.endswith. apply bool_decide_eq_false.
  intros [_ Hdrop]. apply Hne.
  rewrite list_ascii_of_string_app in Hdrop.
  assert (Hl : ∀ s, length (list_ascii_of_string s) = String.length s).
  { intros s. induction s as [|c s IH]; simpl; [reflexivity | rewrite IH; reflexivity]. }
  rewrite length_app, !Hl, <- Hlen in Hdrop.
  replace (String.length root + String.length suffix - String.length suffix)
    with (length (list_ascii_of_string root)) in Hdrop by (rewrite Hl; lia).
  rewrite drop_app_length in Hdrop.
  rewrite <- (string_of_list_ascii_of_string suffix),
          <- (string_of_list_ascii_of_string other).
  f_equal. exact Hdrop.
Qed.

Lemma rfind_eq c p i :
  p !! i = Some c → (∀ k, i < k → p !! k ≠ Some c) → Py.rfind c p = Some i.
Proof.
  intros Hi Hafter. destruct (Py.rfind c p) as [i'|] eqn:Hr.
  - apply rfind_Some in Hr as [Hi' Hafter'].
    destruct (Nat.lt_trichotomy i i') as [Hlt | [-> | Hgt]]; [|reflexivity|].
    + destruct (Hafter i' Hlt Hi').
    + destruct (Hafter' i Hgt Hi).
  - destruct (rfind_None c p Hr i Hi).
Qed.

Lemma append_empty_r (s : string) : (s +:+ "")%string = s.
Proof.
  induction s as [|c s IH]; [reflexivity|].
  change (String c (s +:+ "") = String c s). f_equal. exact IH.
Qed.

(** When the path is a stem, a dot and a plain extension, [splitext]
    cuts at that dot. *)
Lemma splitext_chars_strip stem e :
  plain_ext e → has_stem stem →
  Py.splitext_chars (stem ++ "."%char :: e) = (stem, "."%char :: e).
Proof.
  intros [Hd Hs] (k & c & Hk & Hc & Hns).
  assert (Hklt : k < length stem) by (apply lookup_lt_Some in Hk; exact Hk).
  assert (Hdot : Py.rfind "." (stem ++ "."%char :: e) = Some (length stem)).
  { apply rfind_eq; [apply list_lookup_middle; reflexivity|].
    intros k' Hk'. rewrite lookup_app_r by lia.
    destruct (k' - length stem) as [|n] eqn:Hn; [lia|]. simpl. apply Hd. }
  assert (Hfi : match Py.rfind "/" (stem ++ "."%char :: e) with
                | Some i => S i | None => 0 end ≤ k).
  { destruct (Py.rfind "/" (stem ++ "."%char :: e)) as [i|] eqn:Hsl; [|lia].
    apply rfind_Some in Hsl as [Hi _].
    destruct (decide (i < k)) as [|Hge]; [lia|]. exfalso.
    destruct (decide (i < length stem)) as [Hlt|Hnlt].
    - rewrite lookup_app_l in Hi by exact Hlt. apply (Hns i); [lia | exact Hi].
    - rewrite lookup_app_r in Hi by lia.
      destruct (i - length stem) as [|n]; simpl in Hi;
        [discriminate Hi | exact (Hs n Hi)]. }
  unfold Py.splitext_chars. rewrite Hdot.
  destruct (decide _) as [Hle|Hnle]; [|lia].
  assert (Hex : existsb (λ c, negb (bool_decide (c = "."%char)))
                  (Py.slice
                     match Py.rfind "/" (stem ++ "."%char :: e) with
                     | Some i => S i | None => 0 end
                     (length stem) (stem ++ "."%char :: e)) = true).
  { apply existsb_exists. exists c. split.
    - apply list_elem_of_In.
      apply (list_elem_of_lookup_2 _
               (k - match Py.rfind "/" (stem ++ "."%char :: e) with
                    | Some i => S i | None => 0 end)).
      unfold Py.slice. rewrite lookup_take_lt by lia. rewrite lookup_drop.
      replace (_ + (k - _)) with k by lia.
      rewrite lookup_app_l by exact Hklt. exact Hk.
    - rewrite bool_decide_eq_false_2 by exact Hc. reflexivity. }
  rewrite Hex. rewrite take_app_length, drop_app_length. reflexivity.
Qed.

(** [splitext] takes an extension only from a component that has a
    stem. *)
Lemma splitext_chars_stem p :
  snd (Py.splitext_chars p) ≠ [] → has_stem (fst (Py.splitext_chars p)).
Proof.
  unfold Py.splitext_chars.
  destruct (Py.rfind "." p) as [dot|] eqn:Hdot; [|intros H; destruct (H eq_refl)].
  destruct (decide _) as [Hle|]; [|intros H; destruct (H eq_refl)].
  destruct (existsb _ _) eqn:Hex; [|intros H; destruct (H eq_refl)].
  intros _. cbn [fst].
  apply existsb_exists in Hex as (c & Hin & Hc).
  apply list_elem_of_In, list_elem_of_lookup_1 in Hin as [i Hi].
  unfold Py.slice in Hi. apply lookup_take_Some in Hi as [Hi Hlt].
  rewrite lookup_drop in Hi.
  set (fi := match Py.rfind "/" p with Some i => S i | None => 0 end) in *.
  exists (fi + i), c. split; [rewrite lookup_take_lt by lia; exact Hi|]. split.
  { intros ->. rewrite bool_decide_eq_true_2 in Hc by reflexivity. discriminate Hc. }
  intros k' Hk'. destruct (decide (k' < dot)) as [Hk'lt|];
    [|rewrite lookup_take_ge by lia; discriminate].
  rewrite lookup_take_lt by exact Hk'lt. subst fi.
  destruct (Py.rfind "/" p) as [sl|] eqn:Hsl.
  - apply rfind_Some in Hsl as [_ Hafter]. apply Hafter. lia.
  - apply (rfind_None _ _ Hsl).
Qed.

Lemma splitext_strip stem e :
  plain_ext (list_ascii_of_string e) → has_stem (list_ascii_of_string stem) →
  Py.splitext (stem +:+ String "." e) = (stem, String "." e).
Proof.
  intros He Hstem. unfold Py.splitext. rewrite list_ascii_of_string_app.
  cbn [list_ascii_of_string]. rewrite (splitext_chars_strip _ _ He Hstem).
  rewrite string_of_list_ascii_of_string.
  change ("."%char :: list_ascii_of_string e)
    with (list_ascii_of_string (String "." e)).
  rewrite string_of_list_ascii_of_string. reflexivity.
Qed.

Lemma splitext_stem p :
  snd (Py.splitext p) ≠ ""%string →
  has_stem (list_ascii_of_string (fst (Py.splitext p))).
Proof.
  unfold Py.splitext.
  pose proof (splitext_chars_stem (list_ascii_of_string p)) as Hstem.
  destruct (Py.splitext_chars (list_ascii_of_string p)) as [root ext].
  cbn [fst snd] in *. intros Hne.
  rewrite list_ascii_of_string_of_list_ascii. apply Hstem.
  intros ->. apply Hne. reflexivity.
Qed.

(** C7.  When no output path is given (it is unset or empty) the output
    path is the input path with its extension replaced by [.ome.zarr],
    or by [.nii.zarr] when the header variant is requested; a given
    path is kept; and the header-variant flag is true as soon as the
    output path, given or derived, ends in [.nii.zarr].

    The extension is what [os.path.splitext] takes it to be.  Whenever
    the input path reads [stem.e], with [e] free of dots and slashes and
    the last component of [stem] holding a character other than a dot,
    the extension [.e] is removed: the derived path is [stem] followed
    by the suffix.  And an extension is only ever taken from such a
    stem: otherwise (no dot in the last component, or only leading dots
    before it) the suffix is appended to the whole input path. *)
Theorem output_path_and_flag (inp : string) (nii : bool) :
  let root := fst (Py.splitext inp) in
  let ext := snd (Py.splitext inp) in
  (root +:+ ext)%string = inp
  ∧ (ext = ""%string
     ∨ ∃ e, ext = String "." e
            ∧ (∀ k, list_ascii_of_string e !! k ≠ Some "."%char)
            ∧ (∀ k, list_ascii_of_string e !! k ≠ Some "/"%char))
  ∧ resolve_out inp None nii
    = ((root +:+ (if nii then ".nii.zarr" else ".ome.zarr"))%string, nii)
  ∧ resolve_out inp (Some ""%string) nii = resolve_out inp None nii
  ∧ (∀ o, o ≠ ""%string → fst (resolve_out inp (Some o) nii) = o)
  ∧ (∀ out, snd (resolve_out inp out nii)
            = nii || Py.endswith (fst (resolve_out inp out nii)) ".nii.zarr")
  ∧ (∀ out, Py.endswith (fst (resolve_out inp out nii)) ".nii.zarr" = true →
            snd (resolve_out inp out nii) = true)
  ∧ (∀ stem e,
       inp = (stem +:+ String "." e)%string →
       plain_ext (list_ascii_of_string e) →
       has_stem (list_ascii_of_string stem) →
       root = stem ∧ ext = String "." e
       ∧ resolve_out inp None nii
         = ((stem +:+ (if nii then ".nii.zarr" else ".ome.zarr"))%string, nii))
  ∧ (ext ≠ ""%string → has_stem (list_ascii_of_string root))
  ∧ (ext = ""%string →
       resolve_out inp None nii
       = ((inp +:+ (if nii then ".nii.zarr" else ".ome.zarr"))%string, nii)).
Proof.
  intros root ext.
  assert (Hnone : resolve_out inp None nii
                  = ((root +:+ (if nii then ".nii.zarr" else ".ome.zarr"))%string,
                     nii)).
  { unfold resolve_out. fold root. f_equal. destruct nii; [reflexivity|].
    simpl. apply endswith_app_other; [reflexivity | discriminate]. }
  split; [apply splitext_app|]. split; [apply splitext_ext|].
  split; [exact Hnone|].
  split; [reflexivity|].
  split. { intros o Ho. unfold resolve_out. simpl. rewrite decide_False by exact Ho.
           reflexivity. }
  split; [intros out'; reflexivity|].
  split.
  { intros out' Hends.
    change (nii || Py.endswith (fst (resolve_out inp out' nii)) ".nii.zarr" = true).
    rewrite Hends. apply orb_true_r. }
  split.
  { intros stem e Hinp He Hstem.
    assert (Hsplit : Py.splitext inp = (stem, String "." e))
      by (rewrite Hinp; apply splitext_strip; assumption).
    assert (Hroot : root = stem) by (unfold root; rewrite Hsplit; reflexivity).
    split; [exact Hroot|]. split; [unfold ext; rewrite Hsplit; reflexivity|].
    rewrite Hnone, Hroot. reflexivity. }
  split; [apply splitext_stem|].
  intros Hext.
  assert (Happ : (root +:+ ext)%string = inp) by apply splitext_app.
  rewrite Hext, append_empty_r in Happ. rewrite Hnone, Happ. reflexivity.
Qed.

(** * Centring *)

Section Centring.
Import Orientation.

Lemma recenter_centered shape r :
  apply_row (recenter shape r)
    (fov_center shape 0) (fov_center shape 1) (fov_center shape 2) = 0%Qc.
Proof. unfold apply_row, recenter. cbn [e0 e1 e2 e3]. ring. Qed.

Lemma recenter_fixed shape r :
  apply_row r (fov_center shape 0) (fov_center shape 1) (fov_center shape 2) = 0%Qc →
  recenter shape r = r.
Proof.
  destruct r as [x0 x1 x2 x3]. unfold apply_row, recenter. cbn [e0 e1 e2 e3].
  intros H. f_equal.
  set (s := (x0 * fov_center shape 0 + x1 * fov_center shape 1
             + x2 * fov_center shape 2)%Qc) in *.
  transitivity ((s + x3) - s)%Qc; [rewrite H; ring | ring].
Qed.

Lemma center_affine_centered a shape : centered (center_affine a shape) shape.
Proof.
  intros r Hr. unfold center_affine in Hr. cbn [row0 row1 row2] in Hr.
  repeat (apply elem_of_cons in Hr as [-> | Hr]; [apply recenter_centered|]).
  inversion Hr.
Qed.

Lemma center_affine_fixed b shape : centered b shape → center_affine b shape = b.
Proof.
  intros Hc. destruct b as [b0 b1 b2 b3]. unfold center_affine. cbn [row0 row1 row2 row3].
  unfold centered in Hc. cbn [row0 row1 row2] in Hc.
  rewrite !recenter_fixed; [reflexivity | apply Hc | apply Hc | apply Hc];
    repeat first [left | right; left | right; right; left ].
Qed.

End Centring.

(** C8.  Applying the centring adjustment twice gives the affine that
    applying it once gives: after one application the centre of the
    field of view maps to the origin, and the adjustment leaves every
    affine with that property as it is. *)
Theorem centering_idempotent (a : Orientation.Affine) (shape : list nat) :
  Orientation.center_affine (Orientation.center_affine a shape) shape
  = Orientation.center_affine a shape
  ∧ Orientation.centered (Orientation.center_affine a shape) shape
  ∧ (∀ b, Orientation.centered b shape → Orientation.center_affine b shape = b).
Proof.
  split; [|split].
  - apply center_affine_fixed, center_affine_centered.
  - apply center_affine_centered.
  - intros b. apply center_affine_fixed.
Qed.

(** * The properties on the demonstration codestream *)

Lemma demo_affine :
  Orientation.orientation_to_affine (orientation Demo.args) half half
    (thickness_or_1 (thickness Demo.args)) = Some Demo.affine.
Proof. reflexivity. Defined.

Lemma tiling_equivalence_witness :
  (0 < 2)%Z ∧ decoder_ok Demo.j2k
  ∧ convert (E:=Demo.env) (set_max_load Demo.args (Some 2%Z)) Demo.j2k
    = convert (set_max_load Demo.args None) Demo.j2k
  ∧ (∀ l array, l < jp_num_res Demo.j2k →
       let n := product (drop 2 (jp_shape Demo.j2k)) in
       let H := fst (jp_level_hw Demo.j2k l) in
       let W := snd (jp_level_hw Demo.j2k l) in
       planes_ok n H W array →
       Copy.copy_level (Some 2%Z) H W (jp_level_data Demo.j2k l) array
       = Copy.copy_level None H W (jp_level_data Demo.j2k l) array
       ∧ Copy.copy_level None H W (jp_level_data Demo.j2k l) array
         = inr (jp_level_data Demo.j2k l))
  ∧ (∀ H W ni nj r c,
       Copy.ceildiv (Z.of_nat H) 2 = Some ni →
       Copy.ceildiv (Z.of_nat W) 2 = Some nj →
       r < H → c < W →
       cover_count (Copy.tiles 2 H W ni nj) r c = 1).
Proof.
  split; [lia|]. split; [exact demo_decoder_ok|].
  apply (tiling_equivalence Demo.env Demo.args Demo.j2k 2);
    [lia | exact demo_decoder_ok].
Defined.

Lemma scale_translation_formula_witness :
  literal_eval Demo.env (compressor_opt Demo.args) = Some ()
  ∧ jp_resolution Demo.j2k = Some (half, half)
  ∧ make_compressor Demo.env (compressor Demo.args) () = Some "blosc"%string
  ∧ max_load_ok (max_load Demo.args) ∧ decoder_ok Demo.j2k
  ∧ levels_nonempty Demo.j2k ∧ 1 < jp_num_res Demo.j2k
  ∧ ∃ (g : Group Demo.env) ms d,
      oc_store (convert Demo.args Demo.j2k) = Some g
      ∧ g_multiscales g = Some [ms]
      ∧ ms_datasets ms !! 1 = Some d
      ∧ ds_transforms d =
          [ Scale (Py.list_mul 1%Qc (has_channel Demo.j2k)
                     ++ [ (ofnat 5 / ofnat 3 * half)%Qc; (ofnat 7 / ofnat 4 * half)%Qc ]);
            Translation (Py.list_mul 0%Qc (has_channel Demo.j2k)
                     ++ [ ((ofnat 5 / ofnat 3 - 1) * half / 2)%Qc;
                          ((ofnat 7 / ofnat 4 - 1) * half / 2)%Qc ]) ]
      ∧ (1 = 0 →
         ds_transforms d =
           [ Scale (Py.list_mul 1%Qc (has_channel Demo.j2k) ++ [ half; half ]);
             Translation (Py.list_mul 0%Qc (has_channel Demo.j2k) ++ [ 0%Qc; 0%Qc ]) ]).
Proof.
  repeat (split; [first [reflexivity | exact demo_decoder_ok
                        | exact demo_levels_nonempty | simpl; lia]|]).
  apply (scale_translation_formula Demo.env Demo.args Demo.j2k () "blosc"%string
           half half 1);
    first [reflexivity | exact demo_decoder_ok | exact demo_levels_nonempty
          | simpl; lia].
Defined.

Lemma channel_components_fixed_witness :
  literal_eval Demo.env (compressor_opt Demo.args) = Some ()
  ∧ jp_resolution Demo.j2k = Some (half, half)
  ∧ make_compressor Demo.env (compressor Demo.args) () = Some "blosc"%string
  ∧ max_load_ok (max_load Demo.args) ∧ decoder_ok Demo.j2k
  ∧ levels_nonempty Demo.j2k ∧ 1 < jp_num_res Demo.j2k
  ∧ (Z.of_nat 0 < has_channel Demo.j2k)%Z
  ∧ ∃ (g : Group Demo.env) ms d s t,
      oc_store (convert Demo.args Demo.j2k) = Some g
      ∧ g_multiscales g = Some [ms]
      ∧ ms_datasets ms !! 1 = Some d
      ∧ ds_transforms d = [Scale s; Translation t]
      ∧ s !! 0 = Some 1%Qc
      ∧ t !! 0 = Some 0%Qc
      ∧ Z.of_nat (length s) = (has_channel Demo.j2k + 2)%Z
      ∧ Z.of_nat (length t) = (has_channel Demo.j2k + 2)%Z.
Proof.
  repeat (split; [first [reflexivity | exact demo_decoder_ok
                        | exact demo_levels_nonempty | simpl; lia]|]).
  apply (channel_components_fixed Demo.env Demo.args Demo.j2k () "blosc"%string
           half half 1 0);
    first [reflexivity | exact demo_decoder_ok | exact demo_levels_nonempty
          | simpl; lia].
Defined.

Lemma datasets_follow_levels_witness :
  literal_eval Demo.env (compressor_opt Demo.args) = Some ()
  ∧ jp_resolution Demo.j2k = Some (half, half)
  ∧ make_compressor Demo.env (compressor Demo.args) () = Some "blosc"%string
  ∧ max_load_ok (max_load Demo.args) ∧ decoder_ok Demo.j2k
  ∧ levels_nonempty Demo.j2k
  ∧ ∃ (g : Group Demo.env) ms,
      oc_store (convert Demo.args Demo.j2k) = Some g
      ∧ g_multiscales g = Some [ms]
      ∧ length (ms_datasets ms) = jp_num_res Demo.j2k
      ∧ ds_path <$> ms_datasets ms = Py.str <$> seq 0 (jp_num_res Demo.j2k)
      ∧ (∀ n, n < jp_num_res Demo.j2k →
           ∃ d arr, ms_datasets ms !! n = Some d
                    ∧ g_arrays g !! ds_path d = Some arr
                    ∧ ds_path d = Py.str n
                    ∧ za_shape arr = wj_shape (Wrap Demo.j2k n)
                    ∧ za_data arr = Pixels (jp_level_data Demo.j2k n))
      ∧ (∀ n n', Py.str n = Py.str n' → n = n').
Proof.
  repeat (split; [first [reflexivity | exact demo_decoder_ok
                        | exact demo_levels_nonempty | simpl; lia]|]).
  apply (datasets_follow_levels Demo.env Demo.args Demo.j2k () "blosc"%string
           half half);
    first [reflexivity | exact demo_decoder_ok | exact demo_levels_nonempty
          | simpl; lia].
Defined.

Lemma level_array_shape_and_chunks_witness :
  literal_eval Demo.env (compressor_opt Demo.args) = Some ()
  ∧ jp_resolution Demo.j2k = Some (half, half)
  ∧ make_compressor Demo.env (compressor Demo.args) () = Some "blosc"%string
  ∧ max_load_ok (max_load Demo.args) ∧ decoder_ok Demo.j2k
  ∧ 1 < jp_num_res Demo.j2k
  ∧ ∃ (g : Group Demo.env) arr,
      oc_store (convert Demo.args Demo.j2k) = Some g
      ∧ g_arrays g !! Py.str 1 = Some arr
      ∧ za_shape arr = wj_shape (Wrap Demo.j2k 1)
      ∧ length (za_chunks arr) = length (za_shape arr)
      ∧ Py.last2 (za_chunks arr) = [chunk Demo.args; chunk Demo.args]
      ∧ take (length (za_shape arr) - 2) (za_chunks arr)
        = take (length (za_shape arr) - 2) (za_shape arr).
Proof.
  repeat (split; [first [reflexivity | exact demo_decoder_ok | simpl; lia]|]).
  apply (level_array_shape_and_chunks Demo.env Demo.args Demo.j2k () "blosc"%string
           half half 1);
    first [reflexivity | exact demo_decoder_ok | simpl; lia].
Defined.

Lemma header_array_stored_witness :
  literal_eval Demo.env (compressor_opt Demo.args) = Some ()
  ∧ jp_resolution Demo.j2k = Some (half, half)
  ∧ make_compressor Demo.env (compressor Demo.args) () = Some "blosc"%string
  ∧ max_load_ok (max_load Demo.args) ∧ decoder_ok Demo.j2k
  ∧ levels_nonempty Demo.j2k ∧ 0 < jp_num_res Demo.j2k
  ∧ snd (resolve_out (inp Demo.args) (out Demo.args) (nii Demo.args)) = true
  ∧ Orientation.orientation_to_affine (orientation Demo.args) half half
      (thickness_or_1 (thickness Demo.args)) = Some Demo.affine
  ∧ ∃ (g : Group Demo.env) arr header,
      oc_result (convert (E:=Demo.env) Demo.args Demo.j2k) = inr ()
      ∧ oc_store (convert Demo.args Demo.j2k) = Some g
      ∧ g_arrays g !! "nifti"%string = Some arr
      ∧ header = tobytes Demo.env (header_of Demo.args Demo.j2k Demo.affine)
      ∧ za_data arr = Bytes header
      ∧ za_shape arr = [length header]
      ∧ za_chunks arr = [length header]
      ∧ za_compressor arr = None.
Proof.
  repeat (split; [first [reflexivity | exact demo_decoder_ok
                        | exact demo_levels_nonempty | simpl; lia]|]).
  apply (header_array_stored Demo.env Demo.args Demo.j2k () "blosc"%string
           half half Demo.affine);
    first [reflexivity | exact demo_decoder_ok | exact demo_levels_nonempty
          | simpl; lia].
Defined.

Lemma config_errors_witness :
  (literal_eval Demo.env (compressor_opt Demo.args_bad_opt) = None
   ∧ oc_result (convert (E:=Demo.env) Demo.args_bad_opt Demo.j2k) = inl SyntaxError
   ∧ oc_store (convert (E:=Demo.env) Demo.args_bad_opt Demo.j2k) = None
   ∧ aborts_before_any_write (convert (E:=Demo.env) Demo.args_bad_opt Demo.j2k))
  ∧ literal_eval Demo.env (compressor_opt Demo.args_xx) = Some ()
  ∧ jp_resolution Demo.j2k = Some (half, half)
  ∧ make_compressor Demo.env (compressor Demo.args_xx) () = Some "blosc"%string
  ∧ max_load_ok (max_load Demo.args_xx) ∧ decoder_ok Demo.j2k
  ∧ levels_nonempty Demo.j2k ∧ 0 < jp_num_res Demo.j2k
  ∧ Orientation.orientation_to_affine (orientation Demo.args_xx) half half
      (thickness_or_1 (thickness Demo.args_xx)) = None
  ∧ ∃ g : Group Demo.env,
      oc_store (convert Demo.args_xx Demo.j2k) = Some g
      ∧ (∀ l, l < jp_num_res Demo.j2k →
           g_arrays g !! Py.str l
           = Some (level_array (E:=Demo.env) Demo.j2k (chunk Demo.args_xx)
                     "blosc"%string l))
      ∧ g_multiscales g = Some [multiscale_of Demo.j2k half half]
      ∧ g_arrays g !! "nifti"%string = None
      ∧ oc_result (convert (E:=Demo.env) Demo.args_xx Demo.j2k)
        = if snd (resolve_out (inp Demo.args_xx) (out Demo.args_xx) (nii Demo.args_xx))
          then inl OrientationError else inr ().
Proof.
  split.
  { split; [reflexivity|].
    apply (proj1 (config_errors Demo.env Demo.args_bad_opt Demo.j2k)). reflexivity. }
  repeat (split; [first [reflexivity | exact demo_decoder_ok
                        | exact demo_levels_nonempty | simpl; lia]|]).
  apply (proj2 (config_errors Demo.env Demo.args_xx Demo.j2k) () "blosc"%string
           half half);
    first [reflexivity | exact demo_decoder_ok | exact demo_levels_nonempty
          | simpl; lia].
Defined.

Lemma channel_axis_and_header_shape_witness :
  literal_eval Demo.env (compressor_opt Demo.args) = Some ()
  ∧ jp_resolution Demo.j2k = Some (half, half)
  ∧ make_compressor Demo.env (compressor Demo.args) () = Some "blosc"%string
  ∧ max_load_ok (max_load Demo.args) ∧ decoder_ok Demo.j2k
  ∧ levels_nonempty Demo.j2k
  ∧ (0 < has_channel Demo.j2k)%Z
  ∧ snd (resolve_out (inp Demo.args) (out Demo.args) (nii Demo.args)) = true
  ∧ 0 < jp_num_res Demo.j2k
  ∧ Orientation.orientation_to_affine (orientation Demo.args) half half
      (thickness_or_1 (thickness Demo.args)) = Some Demo.affine
  ∧ ∃ (g : Group Demo.env) ms,
      oc_store (convert Demo.args Demo.j2k) = Some g
      ∧ g_multiscales g = Some [ms]
      ∧ ms_axes ms =
          [ {| ax_name := "c"; ax_type := "channel"; ax_unit := None |};
            {| ax_name := "y"; ax_type := "space";
               ax_unit := Some "micrometer"%string |};
            {| ax_name := "x"; ax_type := "space";
               ax_unit := Some "micrometer"%string |} ]
      ∧ ∃ a0 arr h,
          g_arrays g !! "0"%string = Some a0
          ∧ g_arrays g !! "nifti"%string = Some arr
          ∧ za_data arr = Bytes (tobytes Demo.env h)
          ∧ nh_data_shape h
            = rev (insert_singletons (Z.to_nat (has_channel Demo.j2k)) (za_shape a0)).
Proof.
  repeat (split; [first [reflexivity | exact demo_decoder_ok
                        | exact demo_levels_nonempty | simpl; lia]|]).
  destruct (channel_axis_and_header_shape Demo.env Demo.args Demo.j2k ()
              "blosc"%string half half)
    as (g & ms & Hg & Hms & Hax & Hhdr);
    [reflexivity | reflexivity | reflexivity | simpl; lia | exact demo_decoder_ok
    | exact demo_levels_nonempty | reflexivity |].
  exists g, ms. split; [exact Hg|]. split; [exact Hms|]. split; [exact Hax|].
  apply (Hhdr Demo.affine); [reflexivity | simpl; lia | reflexivity].
Defined.

Lemma output_path_and_flag_witness :
  resolve_out "/data/slice.jp2" None false = ("/data/slice.ome.zarr"%string, false)
  ∧ resolve_out "/data/slice.jp2" None true = ("/data/slice.nii.zarr"%string, true)
  ∧ "out.zarr"%string ≠ ""%string
  ∧ fst (resolve_out "/data/slice.jp2" (Some "out.zarr"%string) false)
    = "out.zarr"%string
  ∧ Py.endswith (fst (resolve_out "/data/slice.jp2" (Some "x.nii.zarr"%string) false))
      ".nii.zarr" = true
  ∧ snd (resolve_out "/data/slice.jp2" (Some "x.nii.zarr"%string) false) = true
  ∧ "/data/slice.jp2"%string = ("/data/slice" +:+ String "." "jp2")%string
  ∧ plain_ext (list_ascii_of_string "jp2")
  ∧ has_stem (list_ascii_of_string "/data/slice")
  ∧ Py.splitext "/data/slice.jp2" = ("/data/slice"%string, ".jp2"%string)
  ∧ snd (Py.splitext "dir/.hidden") = ""%string
  ∧ resolve_out "dir/.hidden" None false = ("dir/.hidden.ome.zarr"%string, false).
Proof.
  pose proof (output_path_and_flag "/data/slice.jp2" false)
    as (_ & _ & Hnone & _ & Hkeep & _ & Hflag & Hstrip & _).
  pose proof (output_path_and_flag "/data/slice.jp2" true)
    as (_ & _ & Hnone' & _).
  pose proof (output_path_and_flag "dir/.hidden" false)
    as (_ & _ & _ & _ & _ & _ & _ & _ & _ & Hwhole).
  assert (He : plain_ext (list_ascii_of_string "jp2")).
  { split; intros k; do 3 (destruct k as [|k]; [simpl; discriminate|]);
      simpl; discriminate. }
  assert (Hstem : has_stem (list_ascii_of_string "/data/slice")).
  { exists 6, "s"%char. split; [reflexivity|]. split; [discriminate|].
    intros k' Hk'. do 6 (destruct k' as [|k']; [lia|]).
    do 5 (destruct k' as [|k']; [simpl; discriminate|]). simpl. discriminate. }
  split; [exact Hnone|]. split; [exact Hnone'|].
  split; [discriminate|]. split; [apply Hkeep; discriminate|].
  split; [reflexivity|]. split; [apply Hflag; reflexivity|].
  split; [reflexivity|]. split; [exact He|]. split; [exact Hstem|].
  split.
  { destruct (Hstrip "/data/slice"%string "jp2"%string eq_refl He Hstem)
      as (Hroot & Hext & _).
    rewrite (surjective_pairing (Py.splitext "/data/slice.jp2")), Hroot, Hext.
    reflexivity. }
  split; [reflexivity|]. apply Hwhole. reflexivity.
Defined.

Lemma centering_idempotent_witness :
  Orientation.centered (Orientation.center_affine Demo.affine [7; 5]) [7; 5]
  ∧ Orientation.center_affine (Orientation.center_affine Demo.affine [7; 5]) [7; 5]
    = Orientation.center_affine Demo.affine [7; 5].
Proof.
  pose proof (centering_idempotent Demo.affine [7; 5]) as (Hidem & Hc & Hfix).
  split; [exact Hc|]. apply Hfix. exact Hc.
Defined.

(** * Further properties of the copy loop *)

Section CopyEdges.
Context {A : Type}.
Implicit Types (subdat array : list (list (list A))).

(** What [copy_level] does, region by region. *)
Lemma copy_level_regions ml H W subdat array :
  Copy.copy_level ml H W subdat array
  = match regions_read ml H W with
    | inl e => inl e
    | inr ts =>
        match Copy.copy_tiles H W ts subdat array with
        | Some a => inr a
        | None => inl ValueError
        end
    end.
Proof.
  unfold Copy.copy_level, regions_read.
  assert (Hwhole :
    match Copy.copy_region H W (whole H W) subdat array with
    | Some a => inr a | None => inl ValueError end
    = match Copy.copy_tiles H W [whole H W] subdat array with
      | Some a => @inr error _ a | None => inl ValueError end).
  { simpl. destruct (Copy.copy_region H W (whole H W) subdat array); reflexivity. }
  destruct ml as [m|]; [|exact Hwhole].
  destruct ((Z.of_nat H <? m)%Z && (Z.of_nat W <? m)%Z); [exact Hwhole|].
  destruct (Copy.ceildiv (Z.of_nat H) m) as [ni|]; [|reflexivity].
  destruct (Copy.ceildiv (Z.of_nat W) m) as [nj|]; reflexivity.
Qed.

Lemma ceildiv_negative (H : nat) m :
  (m < 0)%Z → ∃ ni, Copy.ceildiv (Z.of_nat H) m = Some ni ∧ (ni ≤ 0)%Z.
Proof.
  intros Hm. unfold Copy.ceildiv.
  destruct (m =? 0)%Z eqn:E; [apply Z.eqb_eq in E; lia|].
  eexists. split; [reflexivity|].
  assert (0 ≤ - Z.of_nat H / m)%Z; [|lia].
  rewrite <- (Z.opp_involutive m) at 1. rewrite Z.div_opp_opp by lia.
  apply Z.div_pos; lia.
Qed.

End CopyEdges.

(** X1.  With a negative [max_load] the copy of a level reads no region
    and leaves the destination array as it was: nothing is copied, and
    no error is raised. *)
Theorem negative_max_load_copies_nothing (A : Type) (m : Z) (H W : nat)
    (subdat array : list (list (list A))) :
  (m < 0)%Z →
  regions_read (Some m) H W = inr []
  ∧ Copy.copy_level (Some m) H W subdat array = inr array.
Proof.
  intros Hm.
  assert (Hr : regions_read (Some m) H W = inr []).
  { unfold regions_read.
    replace (Z.of_nat H <? m)%Z with false by (symmetry; apply Z.ltb_ge; lia).
    simpl.
    destruct (ceildiv_negative H m Hm) as (ni & -> & Hni).
    destruct (ceildiv_negative W m Hm) as (nj & -> & Hnj).
    unfold Copy.tiles, Py.range.
    replace (Z.to_nat ni) with 0 by lia. reflexivity. }
  split; [exact Hr|]. rewrite copy_level_regions, Hr. reflexivity.
Qed.

Lemma negative_max_load_copies_nothing_witness :
  (-1 < 0)%Z
  ∧ regions_read (Some (-1)%Z) 5 7 = inr []
  ∧ Copy.copy_level (Some (-1)%Z) 5 7 (Demo.level_planes 0 3 5 7)
      (replicate 3 (replicate 5 (replicate 7 0%Z)))
    = inr (replicate 3 (replicate 5 (replicate 7 0%Z))).
Proof.
  split; [lia|].
  apply (negative_max_load_copies_nothing Z (-1) 5 7). lia.
Defined.

Lemma length_bind_const {B C : Type} (f : B → list C) (l : list B) (k : nat) :
  (∀ x, length (f x) = k) → length (l ≫= f) = length l * k.
Proof.
  intros Hf. induction l as [|x l IH]; [reflexivity|].
  rewrite bind_cons, length_app, IH, Hf. simpl. lia.
Qed.

Lemma length_tiles m H W ni nj :
  length (Copy.tiles m H W ni nj) = Z.to_nat ni * Z.to_nat nj.
Proof.
  unfold Copy.tiles, Py.range.
  rewrite (length_bind_const _ _ (Z.to_nat nj)); [rewrite length_seq; reflexivity|].
  intros i. rewrite (length_bind_const _ _ 1); [rewrite length_seq; lia|].
  intros j. reflexivity.
Qed.

(** X2.  With a positive [max_load] every region that the copy of a
    level reads lies inside the plane and has at most [max_load] rows
    and [max_load] columns, in the tiled branch as in the whole-plane
    branch; the tiled branch visits [ceil(H/max_load) * ceil(W/max_load)]
    tiles. *)
Theorem regions_bounded_by_max_load (m : Z) (H W : nat) :
  (0 < m)%Z →
  ∃ ts,
    regions_read (Some m) H W = inr ts
    ∧ Forall (λ R, region_ok H W R
                   ∧ (Z.of_nat (r1 R - r0 R) ≤ m)%Z
                   ∧ (Z.of_nat (c1 R - c0 R) ≤ m)%Z) ts
    ∧ (∀ ni nj,
         (Z.of_nat H <? m)%Z && (Z.of_nat W <? m)%Z = false →
         Copy.ceildiv (Z.of_nat H) m = Some ni →
         Copy.ceildiv (Z.of_nat W) m = Some nj →
         length ts = Z.to_nat ni * Z.to_nat nj).
Proof.
  intros Hm. unfold regions_read.
  destruct ((Z.of_nat H <? m)%Z && (Z.of_nat W <? m)%Z) eqn:Hsmall.
  - exists [whole H W]. split; [reflexivity|]. split; [|intros; discriminate].
    apply andb_true_iff in Hsmall as [HH HW].
    apply Z.ltb_lt in HH, HW.
    constructor; [|constructor]. unfold region_ok, whole. simpl.
    repeat split; lia.
  - destruct (Copy.ceildiv (Z.of_nat H) m) as [ni|] eqn:Hni.
    2:{ unfold Copy.ceildiv in Hni.
        destruct (m =? 0)%Z eqn:E; [apply Z.eqb_eq in E; lia | discriminate]. }
    destruct (Copy.ceildiv (Z.of_nat W) m) as [nj|] eqn:Hnj.
    2:{ unfold Copy.ceildiv in Hnj.
        destruct (m =? 0)%Z eqn:E; [apply Z.eqb_eq in E; lia | discriminate]. }
    exists (Copy.tiles m H W ni nj). split; [reflexivity|]. split.
    + unfold Copy.tiles. rewrite Forall_forall. intros R HR.
      apply list_elem_of_bind in HR as (i & HR & _).
      apply list_elem_of_bind in HR as (j & HR & _).
      apply list_elem_of_singleton in HR as ->.
      split; [apply tile_region_ok; exact Hm|].
      rewrite tile_pos by exact Hm. simpl. split; nia.
    + intros ni' nj' _ [= <-] [= <-]. apply length_tiles.
Qed.

Lemma regions_bounded_by_max_load_witness :
  (0 < 2)%Z
  ∧ ∃ ts,
      regions_read (Some 2%Z) 5 7 = inr ts
      ∧ Forall (λ R, region_ok 5 7 R
                     ∧ (Z.of_nat (r1 R - r0 R) ≤ 2)%Z
                     ∧ (Z.of_nat (c1 R - c0 R) ≤ 2)%Z) ts
      ∧ (∀ ni nj,
           (Z.of_nat 5 <? 2)%Z && (Z.of_nat 7 <? 2)%Z = false →
           Copy.ceildiv (Z.of_nat 5) 2 = Some ni →
           Copy.ceildiv (Z.of_nat 7) 2 = Some nj →
           length ts = Z.to_nat ni * Z.to_nat nj).
Proof.
  split; [lia|]. apply (regions_bounded_by_max_load 2 5 7). lia.
Defined.

(** * Further properties of [convert]: degenerate inputs *)

Section Degenerate.
Context {E : Env}.
Implicit Types (a : Args) (j : Jp2k) (g : Group E) (comp : codec E).

Lemma copy_level_zero_load {A} H W (subdat array : list (list (list A))) :
  Copy.copy_level (Some 0%Z) H W subdat array = inl ZeroDivisionError.
Proof.
  unfold Copy.copy_level.
  replace (Z.of_nat H <? 0)%Z with false by (symmetry; apply Z.ltb_ge; lia).
  reflexivity.
Qed.

(** A zero [max_load]: the array is created, then the copy raises. *)
Lemma write_level_zero_load j chunk comp l g :
  g_arrays g !! Py.str l = None →
  write_level (level_opt j chunk comp) (Some 0%Z) j l g
  = (inl ZeroDivisionError,
     {| g_arrays := <[Py.str l := unwritten_level_array j chunk comp l]> (g_arrays g);
        g_multiscales := g_multiscales g |}).
Proof.
  intros Hfresh. unfold write_level, unwritten_level_array.
  set (lead := drop 2 (jp_shape j)) in *.
  set (h := fst (jp_level_hw j l)) in *. set (w := snd (jp_level_hw j l)) in *.
  assert (Hshape : wj_shape (Wrap j l) = lead ++ [h; w]) by apply wj_shape_eq.
  erewrite bind_inr; cycle 1.
  { unfold create_dataset. rewrite Hfresh. simpl co_chunks. fold lead.
    rewrite decide_False; [reflexivity|].
    rewrite Hshape, !length_app. simpl. lia. }
  erewrite bind_inr; cycle 1.
  { unfold getarr. simpl g_arrays. rewrite lookup_insert_eq. reflexivity. }
  destruct (index_neg_app2 lead h w) as [H2 H1].
  rewrite Hshape, H2, H1. simpl lift_opt.
  unfold bind at 1. unfold ret at 1. unfold bind at 1. unfold ret at 1.
  simpl za_data. rewrite blank_app2. cbn [za_data].
  rewrite copy_level_zero_load. cbn [lift]. unfold bind, raise. cbn.
  f_equal. f_equal. f_equal.
  rewrite length_app. simpl. rewrite drop_ge by (rewrite length_app; simpl; lia).
  rewrite app_nil_r. reflexivity.
Qed.

End Degenerate.

(** X3.  With [max_load = 0] and at least one level, [convert] raises
    [ZeroDivisionError] in the copy of level 0: the store then holds the
    array of level 0 alone, created with the shape of the level but
    never written to, and no descriptor. *)
Theorem zero_max_load_raises (E : Env) (a : Args) (j : Jp2k)
    (copt : opts E) (comp : codec E) (vxw vxh : Qc) :
  literal_eval E (compressor_opt a) = Some copt →
  jp_resolution j = Some (vxw, vxh) →
  make_compressor E (compressor a) copt = Some comp →
  max_load a = Some 0%Z →
  0 < jp_num_res j →
  oc_result (convert (E:=E) a j) = inl ZeroDivisionError
  ∧ ∃ g : Group E,
      oc_store (convert a j) = Some g
      ∧ g_arrays g = {[ "0"%string := unwritten_level_array j (chunk a) comp 0 ]}
      ∧ g_multiscales g = None.
Proof.
  intros Hlit Hres Hcomp Hml Hn. unfold convert.
  destruct (resolve_out (inp a) (out a) (nii a)) as [out' nii'].
  rewrite Hlit. unfold get_pixelsize. rewrite Hres, Hcomp, Hml.
  destruct (jp_num_res j) as [|n]; [lia|]. simpl seq. cbn [write_levels].
  erewrite bind_inl; cycle 1.
  { erewrite bind_inl; [reflexivity|].
    apply (write_level_zero_load j (chunk a) comp 0 empty_group). apply lookup_empty. }
  cbn [oc_result oc_store]. split; [reflexivity|].
  eexists. split; [reflexivity|]. cbn [g_arrays g_multiscales empty_group].
  split; [rewrite insert_empty; reflexivity | reflexivity].
Qed.

Lemma zero_max_load_raises_witness :
  literal_eval Demo.env (compressor_opt Demo.args_zero_load) = Some ()
  ∧ jp_resolution Demo.j2k = Some (half, half)
  ∧ make_compressor Demo.env (compressor Demo.args_zero_load) () = Some "blosc"%string
  ∧ max_load Demo.args_zero_load = Some 0%Z
  ∧ 0 < jp_num_res Demo.j2k
  ∧ oc_result (convert (E:=Demo.env) Demo.args_zero_load Demo.j2k)
    = inl ZeroDivisionError
  ∧ ∃ g : Group Demo.env,
      oc_store (convert Demo.args_zero_load Demo.j2k) = Some g
      ∧ g_arrays g
        = {[ "0"%string := unwritten_level_array (E:=Demo.env) Demo.j2k
                             (chunk Demo.args_zero_load) "blosc"%string 0 ]}
      ∧ g_multiscales g = None.
Proof.
  repeat (split; [first [reflexivity | simpl; lia]|]).
  apply (zero_max_load_raises Demo.env Demo.args_zero_load Demo.j2k ()
           "blosc"%string half half);
    first [reflexivity | simpl; lia].
Defined.

(** X4.  For a codestream that announces no resolution level, the level
    loop and the metadata loop do nothing: the store holds no array and
    the descriptor has an empty datasets list.  Without the header
    variant [convert] succeeds; with it, [omz["0"]] of line 204 raises
    [KeyError]. *)
Theorem no_level_no_array (E : Env) (a : Args) (j : Jp2k)
    (copt : opts E) (comp : codec E) (vxw vxh : Qc) :
  literal_eval E (compressor_opt a) = Some copt →
  jp_resolution j = Some (vxw, vxh) →
  make_compressor E (compressor a) copt = Some comp →
  jp_num_res j = 0 →
  ∃ g : Group E,
    oc_store (convert a j) = Some g
    ∧ g_arrays g = ∅
    ∧ g_multiscales g = Some [empty_multiscale j]
    ∧ oc_result (convert (E:=E) a j)
      = if snd (resolve_out (inp a) (out a) (nii a))
        then inl KeyError else inr ().
Proof.
  intros Hlit Hres Hcomp Hn. unfold convert.
  destruct (resolve_out (inp a) (out a) (nii a)) as [out' nii'].
  rewrite Hlit. unfold get_pixelsize. rewrite Hres, Hcomp, Hn. cbn [snd].
  destruct nii'; eexists; repeat split; reflexivity.
Qed.

Lemma no_level_no_array_witness :
  literal_eval Demo.env (compressor_opt Demo.args) = Some ()
  ∧ jp_resolution Demo.j2k_flat = Some (half, half)
  ∧ make_compressor Demo.env (compressor Demo.args) () = Some "blosc"%string
  ∧ jp_num_res Demo.j2k_flat = 0
  ∧ ∃ g : Group Demo.env,
      oc_store (convert Demo.args Demo.j2k_flat) = Some g
      ∧ g_arrays g = ∅
      ∧ g_multiscales g = Some [empty_multiscale Demo.j2k_flat]
      ∧ oc_result (convert (E:=Demo.env) Demo.args Demo.j2k_flat)
        = if snd (resolve_out (inp Demo.args) (out Demo.args) (nii Demo.args))
          then inl KeyError else inr ().
Proof.
  repeat (split; [reflexivity|]).
  apply (no_level_no_array Demo.env Demo.args Demo.j2k_flat () "blosc"%string
           half half); reflexivity.
Defined.

(** * Further properties of [convert]: errors and consistency *)

Section DivisionByZero.
Context {E : Env}.
Implicit Types (a : Args) (j : Jp2k) (g : Group E) (comp : codec E).

Lemma dataset_entry_zero j chunk comp vxw vxh n g :
  g_arrays g !! "0"%string = Some (level_array j chunk comp 0) →
  g_arrays g !! Py.str n = Some (level_array j chunk comp n) →
  fst (jp_level_hw j n) = 0 ∨ snd (jp_level_hw j n) = 0 →
  dataset_entry (has_channel j) vxw vxh n g = (inl ZeroDivisionError, g).
Proof.
  intros H0 Hn Hz. unfold dataset_entry.
  erewrite bind_inr; cycle 1. { unfold getarr. rewrite H0. reflexivity. }
  erewrite bind_inr; cycle 1. { unfold getarr. rewrite Hn. reflexivity. }
  unfold level_array. cbn [za_shape]. rewrite !wj_shape_eq, !last2_app2.
  cbn [lookup list_lookup lift_opt].
  unfold bind at 1. unfold ret at 1. unfold bind at 1. unfold ret at 1.
  unfold true_div at 1.
  destruct (decide (fst (jp_level_hw j n) = 0)) as [|Hh]; [reflexivity|].
  cbn [lift]. unfold bind at 1. unfold ret at 1. unfold bind at 1. unfold ret at 1.
  unfold bind at 1. unfold ret at 1.
  unfold true_div at 1.
  destruct (decide (snd (jp_level_hw j n) = 0)) as [|Hw]; [reflexivity|].
  destruct Hz; contradiction.
Qed.

Lemma datasets_zero j chunk comp vxw vxh ls g :
  g_arrays g !! "0"%string = Some (level_array j chunk comp 0) →
  (∀ n, n ∈ ls → g_arrays g !! Py.str n = Some (level_array j chunk comp n)) →
  (∃ n, n ∈ ls ∧ (fst (jp_level_hw j n) = 0 ∨ snd (jp_level_hw j n) = 0)) →
  datasets (has_channel j) vxw vxh ls g = (inl ZeroDivisionError, g).
Proof.
  intros H0 Hls (n & Hn & Hz). induction ls as [|x ls IH]; [inversion Hn|].
  simpl datasets.
  destruct (decide (fst (jp_level_hw j x) = 0 ∨ snd (jp_level_hw j x) = 0))
    as [Hx | Hx].
  - erewrite bind_inl; [reflexivity|].
    apply (dataset_entry_zero j chunk comp); [exact H0 | apply Hls; left | exact Hx].
  - erewrite bind_inr; cycle 1.
    { apply (dataset_entry_ok j chunk comp); [exact H0 | apply Hls; left | tauto | tauto]. }
    erewrite bind_inl; [reflexivity|].
    apply IH.
    + intros n' Hn'. apply Hls. right. exact Hn'.
    + apply elem_of_cons in Hn as [-> | Hn]; [contradiction | exact Hn].
Qed.

End DivisionByZero.

(** X5.  When some level has no row or no column, the metadata loop
    divides by zero: [convert] raises [ZeroDivisionError] after every
    level array was written, and the descriptor is not attached. *)
Theorem empty_level_raises_late (E : Env) (a : Args) (j : Jp2k)
    (copt : opts E) (comp : codec E) (vxw vxh : Qc) (l : nat) :
  literal_eval E (compressor_opt a) = Some copt →
  jp_resolution j = Some (vxw, vxh) →
  make_compressor E (compressor a) copt = Some comp →
  max_load_ok (max_load a) → decoder_ok j →
  l < jp_num_res j →
  fst (jp_level_hw j l) = 0 ∨ snd (jp_level_hw j l) = 0 →
  oc_result (convert (E:=E) a j) = inl ZeroDivisionError
  ∧ ∃ g : Group E,
      oc_store (convert a j) = Some g
      ∧ g_multiscales g = None
      ∧ ∀ k, k < jp_num_res j →
          g_arrays g !! Py.str k = Some (level_array j (chunk a) comp k).
Proof.
  intros Hlit Hres Hcomp Hml Hdec Hl Hz.
  rewrite (convert_levels a j copt comp vxw vxh) by assumption.
  cbn [oc_result oc_store].
  assert (Hfin : finish a j vxw vxh (snd (resolve_out (inp a) (out a) (nii a)))
                   (after_levels j (chunk a) comp)
                 = (inl ZeroDivisionError, after_levels j (chunk a) comp)).
  { unfold finish, write_metadata.
    erewrite bind_inl; [reflexivity|]. erewrite bind_inl; [reflexivity|].
    apply (datasets_zero j (chunk a) comp).
    - rewrite <- str_0. apply after_levels_lookup. lia.
    - intros n Hn. apply elem_of_seq in Hn. apply after_levels_lookup. lia.
    - exists l. split; [apply elem_of_seq; lia | exact Hz]. }
  rewrite Hfin. cbn [fst snd]. split; [reflexivity|].
  eexists. split; [reflexivity|]. split; [reflexivity|].
  intros k Hk. apply after_levels_lookup. exact Hk.
Qed.

Lemma demo_thin_decoder_ok : decoder_ok Demo.j2k_thin.
Proof.
  intros l Hl. destruct l as [|[|l]]; [| |simpl in Hl; lia];
    apply (bool_decide_unpack _); vm_compute; exact I.
Defined.

Lemma empty_level_raises_late_witness :
  literal_eval Demo.env (compressor_opt Demo.args) = Some ()
  ∧ jp_resolution Demo.j2k_thin = Some (half, half)
  ∧ make_compressor Demo.env (compressor Demo.args) () = Some "blosc"%string
  ∧ max_load_ok (max_load Demo.args) ∧ decoder_ok Demo.j2k_thin
  ∧ 1 < jp_num_res Demo.j2k_thin
  ∧ (fst (jp_level_hw Demo.j2k_thin 1) = 0 ∨ snd (jp_level_hw Demo.j2k_thin 1) = 0)
  ∧ oc_result (convert (E:=Demo.env) Demo.args Demo.j2k_thin) = inl ZeroDivisionError
  ∧ ∃ g : Group Demo.env,
      oc_store (convert Demo.args Demo.j2k_thin) = Some g
      ∧ g_multiscales g = None
      ∧ ∀ k, k < jp_num_res Demo.j2k_thin →
          g_arrays g !! Py.str k
          = Some (level_array (E:=Demo.env) Demo.j2k_thin (chunk Demo.args)
                    "blosc"%string k).
Proof.
  repeat (split; [first [reflexivity | exact demo_thin_decoder_ok | simpl; lia
                        | right; reflexivity]|]).
  apply (empty_level_raises_late Demo.env Demo.args Demo.j2k_thin () "blosc"%string
           half half 1);
    first [reflexivity | exact demo_thin_decoder_ok | simpl; lia | right; reflexivity].
Defined.

(** X6.  Failures ahead of the level loop.  A codestream without pixel
    size is refused before the store is opened.  A compressor that
    cannot be built is reported once the destination group has been
    created anew: the store is open and holds neither array nor
    descriptor. *)
Theorem failures_before_levels (E : Env) (a : Args) (j : Jp2k) (copt : opts E) :
  literal_eval E (compressor_opt a) = Some copt →
  (jp_resolution j = None →
     oc_result (convert (E:=E) a j) = inl MetadataError
     ∧ oc_store (convert (E:=E) a j) = None)
  ∧ (∀ v, jp_resolution j = Some v →
       make_compressor E (compressor a) copt = None →
       oc_result (convert (E:=E) a j) = inl CompressorError
       ∧ oc_store (convert (E:=E) a j) = Some empty_group).
Proof.
  intros Hlit. split.
  - intros Hres. unfold convert.
    destruct (resolve_out (inp a) (out a) (nii a)) as [out' nii'].
    rewrite Hlit. unfold get_pixelsize. rewrite Hres. split; reflexivity.
  - intros [vxw vxh] Hres Hcomp. unfold convert.
    destruct (resolve_out (inp a) (out a) (nii a)) as [out' nii'].
    rewrite Hlit. unfold get_pixelsize. rewrite Hres, Hcomp. split; reflexivity.
Qed.

Lemma failures_before_levels_witness :
  literal_eval Demo.env (compressor_opt Demo.args_bad_compressor) = Some ()
  ∧ jp_resolution Demo.j2k_no_resolution = None
  ∧ oc_result (convert (E:=Demo.env) Demo.args_bad_compressor Demo.j2k_no_resolution)
    = inl MetadataError
  ∧ oc_store (convert (E:=Demo.env) Demo.args_bad_compressor Demo.j2k_no_resolution)
    = None
  ∧ jp_resolution Demo.j2k = Some (half, half)
  ∧ make_compressor Demo.env (compressor Demo.args_bad_compressor) () = None
  ∧ oc_result (convert (E:=Demo.env) Demo.args_bad_compressor Demo.j2k)
    = inl CompressorError
  ∧ oc_store (convert (E:=Demo.env) Demo.args_bad_compressor Demo.j2k)
    = Some empty_group.
Proof.
  split; [reflexivity|]. split; [reflexivity|].
  pose proof (failures_before_levels Demo.env Demo.args_bad_compressor
                Demo.j2k_no_resolution () eq_refl) as [Hmeta _].
  pose proof (failures_before_levels Demo.env Demo.args_bad_compressor
                Demo.j2k () eq_refl) as [_ Hcomp].
  destruct (Hmeta eq_refl) as [Hr Hs].
  destruct (Hcomp (half, half) eq_refl eq_refl) as [Hr' Hs'].
  repeat split; assumption.
Defined.

(** X7.  For a codestream of rank two or three (a plane, or a plane
    with bands) the descriptor is consistent with the arrays: the number
    of axes, the length of the group-level scale, and the lengths of the
    scale and of the translation of every level all equal the rank of
    the level arrays. *)
Theorem descriptor_ranks_agree (E : Env) (a : Args) (j : Jp2k)
    (copt : opts E) (comp : codec E) (vxw vxh : Qc) :
  literal_eval E (compressor_opt a) = Some copt →
  jp_resolution j = Some (vxw, vxh) →
  make_compressor E (compressor a) copt = Some comp →
  max_load_ok (max_load a) → decoder_ok j → levels_nonempty j →
  length (jp_shape j) = 2 ∨ length (jp_shape j) = 3 →
  ∃ (g : Group E) ms s0,
    oc_store (convert a j) = Some g
    ∧ g_multiscales g = Some [ms]
    ∧ length (ms_axes ms) = length (jp_shape j)
    ∧ ms_transforms ms = [Scale s0]
    ∧ length s0 = length (jp_shape j)
    ∧ ∀ n, n < jp_num_res j →
        ∃ d s t arr,
          ms_datasets ms !! n = Some d
          ∧ ds_transforms d = [Scale s; Translation t]
          ∧ g_arrays g !! ds_path d = Some arr
          ∧ length (za_shape arr) = length (jp_shape j)
          ∧ length (za_chunks arr) = length (jp_shape j)
          ∧ length s = length (jp_shape j)
          ∧ length t = length (jp_shape j).
Proof.
  intros Hlit Hres Hcomp Hml Hdec Hne Hrank.
  destruct (convert_descriptor a j copt comp vxw vxh) as (g & Hg & Hms & Harr);
    try assumption.
  exists g, (multiscale_of j vxw vxh). eexists.
  split; [exact Hg|]. split; [exact Hms|].
  assert (Hhc : has_channel j = 0%Z ∧ length (jp_shape j) = 2
                ∨ has_channel j = 1%Z ∧ length (jp_shape j) = 3).
  { unfold has_channel, ndim. destruct Hrank as [Hr|Hr]; rewrite Hr; [left | right];
      split; reflexivity. }
  split.
  { change (ms_axes (multiscale_of j vxw vxh)) with (axes (has_channel j)).
    unfold axes. destruct Hhc as [[-> ->] | [-> ->]]; reflexivity. }
  split; [reflexivity|]. split.
  { unfold Py.list_mul. rewrite length_replicate.
    destruct Hhc as [[-> ->] | [-> ->]]; reflexivity. }
  intros n Hn.
  exists (dataset_of j vxw vxh n).
  rewrite multiscale_dataset by exact Hn.
  unfold dataset_of, level_ratio.
  cbn [ds_transforms ds_path]. do 2 eexists. exists (level_array j (chunk a) comp n).
  split; [reflexivity|].
  split; [reflexivity|]. split; [apply Harr; exact Hn|].
  unfold level_array. cbn [za_shape za_chunks]. rewrite wj_shape_eq.
  unfold Py.list_mul. rewrite !length_app, !length_replicate, length_drop. simpl.
  destruct Hhc as [[-> ->] | [-> ->]]; repeat split; reflexivity.
Qed.

Lemma descriptor_ranks_agree_witness :
  literal_eval Demo.env (compressor_opt Demo.args) = Some ()
  ∧ jp_resolution Demo.j2k = Some (half, half)
  ∧ make_compressor Demo.env (compressor Demo.args) () = Some "blosc"%string
  ∧ max_load_ok (max_load Demo.args) ∧ decoder_ok Demo.j2k
  ∧ levels_nonempty Demo.j2k
  ∧ (length (jp_shape Demo.j2k) = 2 ∨ length (jp_shape Demo.j2k) = 3)
  ∧ ∃ (g : Group Demo.env) ms s0,
      oc_store (convert Demo.args Demo.j2k) = Some g
      ∧ g_multiscales g = Some [ms]
      ∧ length (ms_axes ms) = length (jp_shape Demo.j2k)
      ∧ ms_transforms ms = [Scale s0]
      ∧ length s0 = length (jp_shape Demo.j2k)
      ∧ ∀ n, n < jp_num_res Demo.j2k →
          ∃ d s t arr,
            ms_datasets ms !! n = Some d
            ∧ ds_transforms d = [Scale s; Translation t]
            ∧ g_arrays g !! ds_path d = Some arr
            ∧ length (za_shape arr) = length (jp_shape Demo.j2k)
            ∧ length (za_chunks arr) = length (jp_shape Demo.j2k)
            ∧ length s = length (jp_shape Demo.j2k)
            ∧ length t = length (jp_shape Demo.j2k).
Proof.
  repeat (split; [first [reflexivity | exact demo_decoder_ok
                        | exact demo_levels_nonempty | simpl; lia
                        | right; reflexivity]|]).
  apply (descriptor_ranks_agree Demo.env Demo.args Demo.j2k () "blosc"%string
           half half);
    first [reflexivity | exact demo_decoder_ok | exact demo_levels_nonempty
          | simpl; lia | right; reflexivity].
Defined.

(** * Further properties of the output path and of the header variant *)

Lemma append_cancel_l (s a b : string) :
  (s +:+ a = s +:+ b)%string → a = b.
Proof. induction s as [|c s IH]; simpl; [tauto | intros [= H]; apply IH, H]. Qed.

Lemma endswith_app root suffix : Py.endswith (root +:+ suffix) suffix = true.
Proof.
  unfold Py.endswith. apply bool_decide_eq_true.
  rewrite list_ascii_of_string_app, length_app. split; [lia|].
  replace (length (list_ascii_of_string root) + length (list_ascii_of_string suffix)
           - length (list_ascii_of_string suffix))
    with (length (list_ascii_of_string root)) by lia.
  apply drop_app_length.
Qed.

Lemma resolve_out_derived inp nii :
  resolve_out inp None nii = ((fst (Py.splitext inp) +:+ out_suffix nii)%string, nii).
Proof.
  unfold resolve_out, out_suffix. f_equal. destruct nii; [reflexivity|].
  simpl. apply endswith_app_other; [reflexivity | discriminate].
Qed.

(** X8.  When no output path is given, the derived path ends in the
    suffix of the requested variant and is never the input path itself:
    the store, which is created by overwriting, cannot land on the
    input file. *)
Theorem derived_output_is_not_input (inp : string) (nii : bool) :
  fst (resolve_out inp None nii) ≠ inp
  ∧ Py.endswith (fst (resolve_out inp None nii)) (out_suffix nii) = true.
Proof.
  rewrite resolve_out_derived. cbn [fst]. split; [|apply endswith_app].
  intros Heq.
  rewrite <- (splitext_app inp) in Heq at 2.
  apply append_cancel_l in Heq.
  destruct (splitext_ext inp) as [Hext | (e & Hext & Hdot & _)];
    rewrite Hext in Heq.
  - destruct nii; discriminate Heq.
  - destruct nii; injection Heq as <-; exact (Hdot 3 eq_refl).
Qed.

Section HeaderVariant.
Context {E : Env}.
Implicit Types (a : Args) (j : Jp2k) (g : Group E) (comp : codec E).

Lemma dom_with_levels j chunk comp ls g :
  dom (g_arrays (with_levels j chunk comp ls g))
  = dom (g_arrays g) ∪ list_to_set (Py.str <$> ls).
Proof.
  revert g. induction ls as [|l ls IH]; intros g.
  - rewrite fmap_nil, list_to_set_nil, (right_id_L ∅ (∪)). reflexivity.
  - rewrite fmap_cons, list_to_set_cons.
    change (l :: ls) with ([l] ++ ls). rewrite with_levels_app, IH.
    unfold with_levels at 1. cbn [g_arrays fold_left]. rewrite dom_insert_L.
    rewrite (comm_L (∪) {[Py.str l]} (dom (g_arrays g))), (assoc_L (∪)).
    reflexivity.
Qed.

Lemma dom_after_levels j chunk comp :
  dom (g_arrays (after_levels (E:=E) j chunk comp))
  = list_to_set (Py.str <$> seq 0 (jp_num_res j)).
Proof.
  unfold after_levels. rewrite dom_with_levels. simpl. rewrite dom_empty_L.
  apply (left_id_L ∅ (∪)).
Qed.

Lemma size_level_keys n :
  size (list_to_set (Py.str <$> seq 0 n) : gset string) = n.
Proof.
  rewrite size_list_to_set.
  - rewrite length_fmap. apply length_seq.
  - apply NoDup_fmap_2; [intros x y; apply str_inj | apply NoDup_seq].
Qed.

Lemma nifti_not_level_key n :
  "nifti"%string ∉ (list_to_set (Py.str <$> seq 0 n) : gset string).
Proof.
  rewrite elem_of_list_to_set, list_elem_of_fmap. intros (l & Hl & _).
  symmetry in Hl. exact (str_ne_nifti l Hl).
Qed.

End HeaderVariant.

(** X9.  An output path that ends in [.nii.zarr] asks for the header
    variant by itself: the run is the one with the flag set. *)
Theorem suffix_requests_header (E : Env) (a : Args) (j : Jp2k) (o : string) :
  out a = Some o → o ≠ ""%string →
  Py.endswith o ".nii.zarr" = true →
  convert (E:=E) a j = convert (set_nii a true) j.
Proof.
  intros Hout Ho Hends.
  assert (Hres : resolve_out (inp a) (out a) (nii a)
                 = resolve_out (inp a) (out a) true).
  { unfold resolve_out. rewrite Hout.
    destruct (decide (o = ""%string)) as [Heq|_]; [contradiction|].
    rewrite Hends, orb_true_r. reflexivity. }
  unfold convert.
  cbn [set_nii inp out nii compressor_opt compressor chunk max_load].
  rewrite Hres. reflexivity.
Qed.

Lemma suffix_requests_header_witness :
  out Demo.args_by_suffix = Some "/data/out.nii.zarr"%string
  ∧ "/data/out.nii.zarr"%string ≠ ""%string
  ∧ Py.endswith "/data/out.nii.zarr" ".nii.zarr" = true
  ∧ convert (E:=Demo.env) Demo.args_by_suffix Demo.j2k
    = convert (set_nii Demo.args_by_suffix true) Demo.j2k.
Proof.
  split; [reflexivity|]. split; [discriminate|]. split; [reflexivity|].
  apply (suffix_requests_header Demo.env Demo.args_by_suffix Demo.j2k
           "/data/out.nii.zarr"); [reflexivity | discriminate | reflexivity].
Defined.

(** X10.  Without the header variant, the orientation code, the
    centring flag and the slice thickness are never looked at: whatever
    they are, the run is the same. *)
Theorem header_options_unused (E : Env) (a : Args) (j : Jp2k)
    (o : string) (c : bool) (t : option Qc) :
  snd (resolve_out (inp a) (out a) (nii a)) = false →
  convert (E:=E) (set_header_options a o c t) j = convert a j.
Proof.
  intros Hplain. unfold convert.
  cbn [set_header_options inp out nii compressor_opt compressor chunk max_load].
  destruct (resolve_out (inp a) (out a) (nii a)) as [out' nii'].
  simpl in Hplain. subst nii'. reflexivity.
Qed.

Lemma header_options_unused_witness :
  snd (resolve_out (inp Demo.args_xx_plain) (out Demo.args_xx_plain)
         (nii Demo.args_xx_plain)) = false
  ∧ convert (E:=Demo.env) (set_header_options Demo.args_xx_plain "LP" false None)
      Demo.j2k
    = convert Demo.args_xx_plain Demo.j2k.
Proof.
  split; [reflexivity|].
  apply (header_options_unused Demo.env Demo.args_xx_plain Demo.j2k "LP" false None).
  reflexivity.
Defined.

(** X11.  A run that succeeds leaves in the store the level arrays and,
    with the header variant, the header array, and nothing else: the
    keys are the decimal numerals of the levels, plus ["nifti"] with the
    header variant. *)
Theorem store_holds_levels_and_header (E : Env) (a : Args) (j : Jp2k)
    (copt : opts E) (comp : codec E) (vxw vxh : Qc) (aff : Orientation.Affine) :
  literal_eval E (compressor_opt a) = Some copt →
  jp_resolution j = Some (vxw, vxh) →
  make_compressor E (compressor a) copt = Some comp →
  max_load_ok (max_load a) → decoder_ok j → levels_nonempty j →
  0 < jp_num_res j →
  Orientation.orientation_to_affine (orientation a) vxw vxh
    (thickness_or_1 (thickness a)) = Some aff →
  oc_result (convert (E:=E) a j) = inr ()
  ∧ ∃ g : Group E,
      oc_store (convert a j) = Some g
      ∧ dom (g_arrays g)
        = list_to_set (Py.str <$> seq 0 (jp_num_res j))
          ∪ (if snd (resolve_out (inp a) (out a) (nii a))
             then {[ "nifti"%string ]} else ∅)
      ∧ size (g_arrays g)
        = jp_num_res j
          + (if snd (resolve_out (inp a) (out a) (nii a)) then 1 else 0).
Proof.
  intros Hlit Hres Hcomp Hml Hdec Hne Hn Haff.
  rewrite (convert_levels a j copt comp vxw vxh) by assumption.
  cbn [oc_result oc_store].
  destruct (snd (resolve_out (inp a) (out a) (nii a))).
  - rewrite (finish_header a j (chunk a) comp vxw vxh aff) by assumption.
    cbn [fst snd]. split; [reflexivity|]. eexists. split; [reflexivity|].
    cbn [g_arrays].
    assert (Hdom : dom (<["nifti"%string := header_array (header_of a j aff)]>
                          (g_arrays (after_levels j (chunk a) comp)))
                   = list_to_set (Py.str <$> seq 0 (jp_num_res j)) ∪ {["nifti"%string]}).
    { rewrite dom_insert_L, dom_after_levels. apply (comm_L (∪)). }
    split; [exact Hdom|].
    rewrite <- size_dom, Hdom, size_union, size_level_keys, size_singleton.
    + reflexivity.
    + apply disjoint_singleton_r, nifti_not_level_key.
  - rewrite (finish_plain a j (chunk a) comp vxw vxh) by assumption.
    cbn [fst snd]. split; [reflexivity|]. eexists. split; [reflexivity|].
    cbn [g_arrays]. rewrite <- size_dom, dom_after_levels, size_level_keys.
    split; [symmetry; apply (right_id_L ∅ (∪)) | lia].
Qed.

Lemma store_holds_levels_and_header_witness :
  literal_eval Demo.env (compressor_opt Demo.args) = Some ()
  ∧ jp_resolution Demo.j2k = Some (half, half)
  ∧ make_compressor Demo.env (compressor Demo.args) () = Some "blosc"%string
  ∧ max_load_ok (max_load Demo.args) ∧ decoder_ok Demo.j2k
  ∧ levels_nonempty Demo.j2k ∧ 0 < jp_num_res Demo.j2k
  ∧ Orientation.orientation_to_affine (orientation Demo.args) half half
      (thickness_or_1 (thickness Demo.args)) = Some Demo.affine
  ∧ oc_result (convert (E:=Demo.env) Demo.args Demo.j2k) = inr ()
  ∧ ∃ g : Group Demo.env,
      oc_store (convert Demo.args Demo.j2k) = Some g
      ∧ dom (g_arrays g)
        = list_to_set (Py.str <$> seq 0 (jp_num_res Demo.j2k))
          ∪ (if snd (resolve_out (inp Demo.args) (out Demo.args) (nii Demo.args))
             then {[ "nifti"%string ]} else ∅)
      ∧ size (g_arrays g)
        = jp_num_res Demo.j2k
          + (if snd (resolve_out (inp Demo.args) (out Demo.args) (nii Demo.args))
             then 1 else 0).
Proof.
  repeat (split; [first [reflexivity | exact demo_decoder_ok
                        | exact demo_levels_nonempty | simpl; lia]|]).
  apply (store_holds_levels_and_header Demo.env Demo.args Demo.j2k () "blosc"%string
           half half Demo.affine);
    first [reflexivity | exact demo_decoder_ok | exact demo_levels_nonempty
          | simpl; lia].
Defined.

(** X12.  The header variant only adds the header array: with no output
    path given, the store of the run with the header is the store of
    the run without it plus the array under ["nifti"]; level arrays and
    descriptor are the same. *)
Theorem header_variant_adds_one_array (E : Env) (a : Args) (j : Jp2k)
    (copt : opts E) (comp : codec E) (vxw vxh : Qc) (aff : Orientation.Affine) :
  literal_eval E (compressor_opt a) = Some copt →
  jp_resolution j = Some (vxw, vxh) →
  make_compressor E (compressor a) copt = Some comp →
  max_load_ok (max_load a) → decoder_ok j → levels_nonempty j →
  0 < jp_num_res j →
  Orientation.orientation_to_affine (orientation a) vxw vxh
    (thickness_or_1 (thickness a)) = Some aff →
  out a = None →
  ∃ (g gp : Group E),
    oc_store (convert (set_nii a true) j) = Some g
    ∧ oc_store (convert (set_nii a false) j) = Some gp
    ∧ g_arrays gp !! "nifti"%string = None
    ∧ g_arrays g = <["nifti"%string := header_array (header_of a j aff)]> (g_arrays gp)
    ∧ g_multiscales g = g_multiscales gp.
Proof.
  intros Hlit Hres Hcomp Hml Hdec Hne Hn Haff Hout.
  rewrite (convert_levels (set_nii a true) j copt comp vxw vxh) by assumption.
  rewrite (convert_levels (set_nii a false) j copt comp vxw vxh) by assumption.
  cbn [set_nii inp out nii chunk oc_store]. rewrite Hout, !resolve_out_derived.
  cbn [snd].
  rewrite (finish_header (set_nii a true) j (chunk a) comp vxw vxh aff) by assumption.
  rewrite (finish_plain (set_nii a false) j (chunk a) comp vxw vxh) by assumption.
  cbn [snd]. do 2 eexists. split; [reflexivity|]. split; [reflexivity|].
  cbn [g_arrays g_multiscales].
  split; [apply after_levels_no_nifti|]. split; reflexivity.
Qed.

Lemma header_variant_adds_one_array_witness :
  literal_eval Demo.env (compressor_opt Demo.args) = Some ()
  ∧ jp_resolution Demo.j2k = Some (half, half)
  ∧ make_compressor Demo.env (compressor Demo.args) () = Some "blosc"%string
  ∧ max_load_ok (max_load Demo.args) ∧ decoder_ok Demo.j2k
  ∧ levels_nonempty Demo.j2k ∧ 0 < jp_num_res Demo.j2k
  ∧ Orientation.orientation_to_affine (orientation Demo.args) half half
      (thickness_or_1 (thickness Demo.args)) = Some Demo.affine
  ∧ out Demo.args = None
  ∧ ∃ (g gp : Group Demo.env),
      oc_store (convert (set_nii Demo.args true) Demo.j2k) = Some g
      ∧ oc_store (convert (set_nii Demo.args false) Demo.j2k) = Some gp
      ∧ g_arrays gp !! "nifti"%string = None
      ∧ g_arrays g
        = <["nifti"%string := header_array (header_of Demo.args Demo.j2k Demo.affine)]>
            (g_arrays gp)
      ∧ g_multiscales g = g_multiscales gp.
Proof.
  repeat (split; [first [reflexivity | exact demo_decoder_ok
                        | exact demo_levels_nonempty | simpl; lia]|]).
  apply (header_variant_adds_one_array Demo.env Demo.args Demo.j2k () "blosc"%string
           half half Demo.affine);
    first [reflexivity | exact demo_decoder_ok | exact demo_levels_nonempty
          | simpl; lia].
Defined.

(** * Codestreams without a channel dimension *)




